(** * Charger limiter (drivers/power/charger_limiter.c)

    A shallow embedding of the charge governor: the module-level flags and
    tunables become one record, the worker, the start/stop pair and the
    sysfs store handlers become computations in a small state-and-fault
    monad over that record.  The charging actuator and the power supplies
    are external: the actuator's return codes are an oracle over the call
    history, the supplies are arguments of the handlers that look them up. *)

From Stdlib Require Import ZArith List Bool Lia.
From Stdlib Require String Ascii DecimalString.
Import ListNotations.
Local Open Scope Z_scope.

(** ** Machine integers *)

(** [int]: 32 bits, two's complement, wrapping. *)
Definition int_of (z : Z) : Z := (z + 2 ^ 31) mod 2 ^ 32 - 2 ^ 31.

(** [unsigned int]: 32 bits, wrapping. *)
Definition uint_of (z : Z) : Z := z mod 2 ^ 32.

Definition EINVAL : Z := 22.
Definition ENOMEM : Z := 12.

(** ** Power supplies *)

Inductive power_supply_property : Type :=
| POWER_SUPPLY_PROP_STATUS
| POWER_SUPPLY_PROP_CAPACITY
| POWER_SUPPLY_PROP_PRESENT.

(** Modelled from the spec: the header that declares the status enumeration
    is not part of the source tree; the spec lists the statuses Charging,
    Discharging, NotCharging and Unknown, and the worker only compares
    against Charging.  The value is the one of the kernel enumeration. *)
Definition POWER_SUPPLY_STATUS_CHARGING : Z := 1.

(** A [struct power_supply] as the worker sees it: the [get_property]
    callback, possibly NULL; a call stores an [intval] for the property. *)
Record power_supply : Type := mk_power_supply {
  get_property : option (power_supply_property -> Z)
}.

(** ** Module state *)

Record kstate : Type := mk_kstate {
  charging_off : bool;
  cl_is_enabled : bool;
  charge_should_off : bool;
  enabled : Z;
  charging_below : Z;
  charging_limit : Z;
  (** [charge_limiter_wq] is non-NULL *)
  charge_limiter_wq : bool;
  (** delay, in ms, of the queued [charger_limiter_work], if any *)
  pending_work : option Z;
  (** arguments of the calls to the actuator so far, oldest first *)
  actuator_log : list bool
}.

Definition initial_state : kstate :=
  {| charging_off := false; cl_is_enabled := false; charge_should_off := false;
     enabled := 0; charging_below := 95; charging_limit := 100;
     charge_limiter_wq := false; pending_work := None; actuator_log := [] |}.

Definition set_charging_off (b : bool) (s : kstate) : kstate :=
  mk_kstate b (cl_is_enabled s) (charge_should_off s) (enabled s)
    (charging_below s) (charging_limit s) (charge_limiter_wq s)
    (pending_work s) (actuator_log s).

Definition set_cl_is_enabled (b : bool) (s : kstate) : kstate :=
  mk_kstate (charging_off s) b (charge_should_off s) (enabled s)
    (charging_below s) (charging_limit s) (charge_limiter_wq s)
    (pending_work s) (actuator_log s).

Definition set_charge_should_off (b : bool) (s : kstate) : kstate :=
  mk_kstate (charging_off s) (cl_is_enabled s) b (enabled s)
    (charging_below s) (charging_limit s) (charge_limiter_wq s)
    (pending_work s) (actuator_log s).

Definition set_enabled (v : Z) (s : kstate) : kstate :=
  mk_kstate (charging_off s) (cl_is_enabled s) (charge_should_off s) v
    (charging_below s) (charging_limit s) (charge_limiter_wq s)
    (pending_work s) (actuator_log s).

Definition set_charging_below (v : Z) (s : kstate) : kstate :=
  mk_kstate (charging_off s) (cl_is_enabled s) (charge_should_off s) (enabled s)
    v (charging_limit s) (charge_limiter_wq s)
    (pending_work s) (actuator_log s).

Definition set_charging_limit (v : Z) (s : kstate) : kstate :=
  mk_kstate (charging_off s) (cl_is_enabled s) (charge_should_off s) (enabled s)
    (charging_below s) v (charge_limiter_wq s)
    (pending_work s) (actuator_log s).

Definition set_charge_limiter_wq (b : bool) (s : kstate) : kstate :=
  mk_kstate (charging_off s) (cl_is_enabled s) (charge_should_off s) (enabled s)
    (charging_below s) (charging_limit s) b
    (pending_work s) (actuator_log s).

Definition set_pending_work (w : option Z) (s : kstate) : kstate :=
  mk_kstate (charging_off s) (cl_is_enabled s) (charge_should_off s) (enabled s)
    (charging_below s) (charging_limit s) (charge_limiter_wq s)
    w (actuator_log s).

Definition log_actuator_call (enable : bool) (s : kstate) : kstate :=
  mk_kstate (charging_off s) (cl_is_enabled s) (charge_should_off s) (enabled s)
    (charging_below s) (charging_limit s) (charge_limiter_wq s)
    (pending_work s) (actuator_log s ++ [enable]).

(** ** The monad: state passing, [None] for a NULL dereference *)

Definition M (A : Type) : Type := kstate -> option (A * kstate).

Definition ret {A : Type} (a : A) : M A := fun s => Some (a, s).

Definition bind {A B : Type} (m : M A) (f : A -> M B) : M B :=
  fun s => match m s with
           | Some (a, s') => f a s'
           | None => None
           end.

Definition oops {A : Type} : M A := fun _ => None.

Definition gets {A : Type} (f : kstate -> A) : M A := fun s => Some (f s, s).

Definition modify (f : kstate -> kstate) : M unit := fun s => Some (tt, f s).

Declare Scope kmonad_scope.
Delimit Scope kmonad_scope with kmonad.
Notation "x <- m ;; k" := (bind m (fun x => k))
  (at level 61, m at next level, right associativity) : kmonad_scope.
Notation "m ;; k" := (bind m (fun _ => k))
  (at level 61, right associativity) : kmonad_scope.
Local Open Scope kmonad_scope.

(** The state a computation ends in, when it does not fault. *)
Definition exec {A : Type} (m : M A) (s : kstate) : option kstate :=
  match m s with
  | Some (_, s') => Some s'
  | None => None
  end.

(** ** Workqueue primitives, as far as the driver depends on them *)

(** [queue_delayed_work(wq, &charger_limiter_work, msecs_to_jiffies(ms))]:
    dereferences [wq]; the driver only queues the work from its own handler
    or right after [INIT_DELAYED_WORK], so the work is never already
    pending and the requested delay is the one that is armed. *)
Definition queue_delayed_work (ms : Z) : M unit :=
  wq <- gets charge_limiter_wq ;;
  if wq then modify (set_pending_work (Some ms)) else oops.

Definition cancel_delayed_work_sync : M unit :=
  modify (set_pending_work None).

(** [destroy_workqueue(wq)] drains [wq] first, which dereferences it.  The
    driver does not assign [charge_limiter_wq] afterwards: the pointer keeps
    its value until the next start. *)
Definition destroy_workqueue : M unit :=
  wq <- gets charge_limiter_wq ;;
  if wq then ret tt else oops.

Section Driver.

(** Return code of [power_supply_set_charging_enabled], given the calls made
    before and the requested value; [0] is success. *)
Variable actuator_rc : list bool -> bool -> Z.

Definition power_supply_set_charging_enabled (enable : bool) : M Z :=
  history <- gets actuator_log ;;
  modify (log_actuator_call enable) ;;
  ret (actuator_rc history enable).

Definition reschedule_worker (ms : Z) : M unit :=
  queue_delayed_work ms.

Definition enable_disable_charging (enable : bool) : M unit :=
  off <- gets charging_off ;;
  if off && enable then
    rc <- power_supply_set_charging_enabled true ;;
    if rc =? 0 then modify (set_charging_off false) else ret tt
  else if negb off && negb enable then
    rc <- power_supply_set_charging_enabled false ;;
    if rc =? 0 then modify (set_charging_off true) else ret tt
  else ret tt.

(** The body of the worker after the three property reads; yields
    [ms_timer]. *)
Definition charger_limiter_decide (status bat_percent usb_connect : Z) : M Z :=
  below <- gets charging_below ;;
  (if bat_percent <=? below then enable_disable_charging true else ret tt) ;;
  if (status =? POWER_SUPPLY_STATUS_CHARGING) || negb (usb_connect =? 0) then
    below <- gets charging_below ;;
    if bat_percent <=? below then
      enable_disable_charging true ;; ret 1000
    else
      limit <- gets charging_limit ;;
      if bat_percent >=? limit then
        should_off <- gets charge_should_off ;;
        if should_off then
          enable_disable_charging false ;;
          modify (set_charge_should_off false) ;;
          ret 1000
        else
          modify (set_charge_should_off true) ;;
          ret 10000
      else ret 1000
  else ret 1000.

(** [batt_psy] and [usb_psy] are what [power_supply_get_by_name] returned
    ([None] for NULL).  The test of the [get_property] callbacks
    dereferences [batt_psy] and, when the first disjunct is false,
    [usb_psy]. *)
Definition charger_limiter_worker (batt_psy usb_psy : option power_supply)
  : M unit :=
  match batt_psy with
  | None => oops
  | Some batt =>
    match get_property batt with
    | None => reschedule_worker 5000
    | Some batt_get =>
      match usb_psy with
      | None => oops
      | Some usb =>
        match get_property usb with
        | None => reschedule_worker 5000
        | Some usb_get =>
          ms_timer <- charger_limiter_decide
                        (batt_get POWER_SUPPLY_PROP_STATUS)
                        (batt_get POWER_SUPPLY_PROP_CAPACITY)
                        (usb_get POWER_SUPPLY_PROP_PRESENT) ;;
          reschedule_worker ms_timer
        end
      end
    end
  end.

(** [alloc_ok]: whether [alloc_workqueue] returned a workqueue. *)
Definition start_charger_limiter (alloc_ok : bool) : M Z :=
  modify (set_charge_limiter_wq alloc_ok) ;;
  if negb alloc_ok then ret (- ENOMEM)
  else reschedule_worker 1000 ;; ret 0.

Definition stop_charger_limiter (batt_psy : option power_supply) : M unit :=
  cancel_delayed_work_sync ;;
  destroy_workqueue ;;
  match batt_psy with
  | Some _ => enable_disable_charging true
  | None => ret tt
  end.

(** ** sysfs store handlers

    [scanned] is the outcome of [sscanf(buf, "%u", &input)]: [None] when no
    number was converted, otherwise the number, stored into an
    [unsigned int]. *)

Definition store_enabled (scanned : option Z) (count : Z)
    (alloc_ok : bool) (batt_psy : option power_supply) : M Z :=
  match scanned with
  | None => ret (- EINVAL)
  | Some v =>
    let input := uint_of v in
    modify (set_enabled (int_of input)) ;;
    en <- gets enabled ;;
    running <- gets cl_is_enabled ;;
    (if negb (en =? 0) then
       if negb running then
         start_charger_limiter alloc_ok ;; modify (set_cl_is_enabled true)
       else ret tt
     else
       if running then
         stop_charger_limiter batt_psy ;; modify (set_cl_is_enabled false)
       else ret tt) ;;
    ret count
  end.

End Driver.

Definition store_charging_below (scanned : option Z) (count : Z) : M Z :=
  match scanned with
  | None => ret (- EINVAL)
  | Some v =>
    let input := uint_of v in
    let input := if input >? 100 then 100 else input in
    modify (set_charging_below (int_of input)) ;;
    below <- gets charging_below ;;
    limit <- gets charging_limit ;;
    (if below >=? limit then modify (set_charging_below (int_of (limit - 5)))
     else ret tt) ;;
    ret count
  end.

Definition store_charging_limit (scanned : option Z) (count : Z) : M Z :=
  match scanned with
  | None => ret (- EINVAL)
  | Some v =>
    let input := uint_of v in
    let input := if input >? 100 then 100 else input in
    modify (set_charging_limit (int_of input)) ;;
    limit <- gets charging_limit ;;
    below <- gets charging_below ;;
    (if limit <=? below then modify (set_charging_limit (int_of (below + 5)))
     else ret tt) ;;
    ret count
  end.

(** ** Events and runs *)

Inductive event : Type :=
| Cycle (batt_psy usb_psy : option power_supply)
| WriteEnabled (scanned : option Z) (count : Z) (alloc_ok : bool)
    (batt_psy : option power_supply)
| WriteBelow (scanned : option Z) (count : Z)
| WriteLimit (scanned : option Z) (count : Z).

Definition step (actuator_rc : list bool -> bool -> Z) (e : event) : M unit :=
  match e with
  | Cycle batt_psy usb_psy => charger_limiter_worker actuator_rc batt_psy usb_psy
  | WriteEnabled scanned count alloc_ok batt_psy =>
      store_enabled actuator_rc scanned count alloc_ok batt_psy ;; ret tt
  | WriteBelow scanned count => store_charging_below scanned count ;; ret tt
  | WriteLimit scanned count => store_charging_limit scanned count ;; ret tt
  end.

Fixpoint run (actuator_rc : list bool -> bool -> Z) (es : list event) : M unit :=
  match es with
  | [] => ret tt
  | e :: es' => step actuator_rc e ;; run actuator_rc es'
  end.

(** What the worker reads in a cycle: [Some (status, capacity, usb)] when
    both supplies exist and have a [get_property] callback. *)
Definition snapshot (batt_psy usb_psy : option power_supply)
  : option (Z * Z * Z) :=
  match batt_psy, usb_psy with
  | Some batt, Some usb =>
    match get_property batt, get_property usb with
    | Some batt_get, Some usb_get =>
        Some (batt_get POWER_SUPPLY_PROP_STATUS,
              batt_get POWER_SUPPLY_PROP_CAPACITY,
              usb_get POWER_SUPPLY_PROP_PRESENT)
    | _, _ => None
    end
  | _, _ => None
  end.

(** The worker takes its early exit: a callback is missing, and no NULL
    supply is dereferenced on the way to finding that out. *)
Definition unavailable (batt_psy usb_psy : option power_supply) : bool :=
  match batt_psy with
  | None => false
  | Some batt =>
    match get_property batt with
    | None => true
    | Some _ =>
      match usb_psy with
      | None => false
      | Some usb =>
        match get_property usb with
        | None => true
        | Some _ => false
        end
      end
    end
  end.

(** Charging is reported or USB is plugged in: the guard of the upper band. *)
Definition charging_or_usb (status usb_connect : Z) : bool :=
  (status =? POWER_SUPPLY_STATUS_CHARGING) || negb (usb_connect =? 0).

(** A supply whose callback answers with fixed readings. *)
Definition supply (status capacity present : Z) : option power_supply :=
  Some (mk_power_supply (Some (fun p =>
    match p with
    | POWER_SUPPLY_PROP_STATUS => status
    | POWER_SUPPLY_PROP_CAPACITY => capacity
    | POWER_SUPPLY_PROP_PRESENT => present
    end))).

(** A supply without a [get_property] callback. *)
Definition supply_not_ready : option power_supply :=
  Some (mk_power_supply None).

(** The loop as [store_enabled] leaves it after a successful start. *)
Definition started_state : kstate :=
  {| charging_off := false; cl_is_enabled := true; charge_should_off := false;
     enabled := 1; charging_below := 95; charging_limit := 100;
     charge_limiter_wq := true; pending_work := Some 1000; actuator_log := [] |}.

(** The net effect of [enable_disable_charging] with [true]: the actuator is
    called only when charging is off, and the flag follows a zero return
    code. *)
Definition resume_effect (rc : list bool -> bool -> Z) (s : kstate) : kstate :=
  if charging_off s then
    if rc (actuator_log s) true =? 0
    then set_charging_off false (log_actuator_call true s)
    else log_actuator_call true s
  else s.

(** The net effect of [enable_disable_charging] with [false]. *)
Definition stop_effect (rc : list bool -> bool -> Z) (s : kstate) : kstate :=
  if charging_off s then s
  else
    if rc (actuator_log s) false =? 0
    then set_charging_off true (log_actuator_call false s)
    else log_actuator_call false s.

(** What every run keeps true of the two thresholds. *)
Definition thresholds_ok (s : kstate) : Prop :=
  -5 <= charging_below s <= 100 /\
  0 <= charging_limit s <= 105 /\
  charging_below s < charging_limit s.

(** A write to one of the two thresholds through sysfs. *)
Inductive threshold_write : Type :=
| SetBelow (scanned : option Z) (count : Z)
| SetLimit (scanned : option Z) (count : Z).

Definition write_event (w : threshold_write) : event :=
  match w with
  | SetBelow scanned count => WriteBelow scanned count
  | SetLimit scanned count => WriteLimit scanned count
  end.

(** An actuator that never fails. *)
Definition never_fails : list bool -> bool -> Z := fun _ _ => 0.

(** An actuator whose first call succeeds and whose later calls all answer
    with an I/O error. *)
Definition fails_after_first : list bool -> bool -> Z :=
  fun history _ => match history with [] => 0 | _ :: _ => -5 end.

(** An actuator whose second call fails, and only that one. *)
Definition fails_second_only : list bool -> bool -> Z :=
  fun history _ => match history with [_] => -5 | _ => 0 end.

(** The loop after it was started and two cycles at the limit, the second of
    which switched charging off. *)
Definition suppressed_state : kstate :=
  {| charging_off := true; cl_is_enabled := true; charge_should_off := false;
     enabled := 1; charging_below := 95; charging_limit := 100;
     charge_limiter_wq := true; pending_work := Some 1000;
     actuator_log := [false] |}.

(** Some call of the resume rule in a cycle at or under charging_below gets
    charging back on: it was never off, or the first call returns 0, or the
    second one (made when charging is reported or USB is present) does. *)
Definition resume_goes_through (rc : list bool -> bool -> Z) (s : kstate)
    (status usb_connect : Z) : bool :=
  negb (charging_off s)
  || (rc (actuator_log s) true =? 0)
  || (charging_or_usb status usb_connect
      && (rc (actuator_log s ++ [true]) true =? 0)).

(** A cycle that does not meet the resume condition for threshold [below]:
    no usable sample, or a capacity above [below]. *)
Definition above_resume (below : Z) (e : event) : bool :=
  match e with
  | Cycle batt_psy usb_psy =>
    match snapshot batt_psy usb_psy with
    | Some (_, cap, _) => below <? cap
    | None => unavailable batt_psy usb_psy
    end
  | _ => false
  end.

(** What a run of cycles above the resume threshold keeps of a state in
    which charging is off. *)
Definition held_off (st s : kstate) : Prop :=
  charge_limiter_wq s = true /\
  charging_below s = charging_below st /\
  charging_limit s = charging_limit st /\
  charging_off s = true /\
  actuator_log s = actuator_log st.

(** The outcome of the decision, by case. *)
Inductive decision (rc : list bool -> bool -> Z) (status cap usbc : Z)
    (s : kstate) : Z -> kstate -> Prop :=
| decision_resume :
    cap <= charging_below s ->
    decision rc status cap usbc s 1000
      (if charging_or_usb status usbc
       then resume_effect rc (resume_effect rc s) else resume_effect rc s)
| decision_stop :
    charging_below s < cap -> charging_limit s <= cap ->
    charging_or_usb status usbc = true -> charge_should_off s = true ->
    decision rc status cap usbc s 1000
      (set_charge_should_off false (stop_effect rc s))
| decision_arm :
    charging_below s < cap -> charging_limit s <= cap ->
    charging_or_usb status usbc = true -> charge_should_off s = false ->
    decision rc status cap usbc s 10000 (set_charge_should_off true s)
| decision_idle :
    charging_below s < cap ->
    charging_or_usb status usbc = false \/ cap < charging_limit s ->
    decision rc status cap usbc s 1000 s.

(** A computation that leaves the two thresholds alone. *)
Definition keeps_thresholds {A : Type} (m : M A) : Prop :=
  forall s a s',
    m s = Some (a, s') ->
    charging_below s' = charging_below s /\
    charging_limit s' = charging_limit s.

(** ** sysfs show handlers *)

(** The text of [sprintf(buf, "%u\n", x)] for a number already converted to
    [unsigned int]: its decimal digits and a newline. *)
Definition decimal_line (n : Z) : String.string :=
  String.append
    (DecimalString.NilZero.string_of_uint (N.to_uint (Z.to_N n)))
    (String.String (Ascii.ascii_of_nat 10) String.EmptyString).

(** [sprintf(buf, "%u\n", x)] with [x] an [int]: the contents of [buf] and
    the number of characters written. *)
Definition sprintf_u (x : Z) : String.string * Z :=
  let text := decimal_line (uint_of x) in
  (text, Z.of_nat (String.length text)).

Definition show_enabled (s : kstate) : String.string * Z :=
  sprintf_u (enabled s).

Definition show_charging_below (s : kstate) : String.string * Z :=
  sprintf_u (charging_below s).

Definition show_charging_limit (s : kstate) : String.string * Z :=
  sprintf_u (charging_limit s).

(** ** Notions used by the statements about runs *)

(** A computation that keeps a property of the state. *)
Definition preserves {A : Type} (P : kstate -> Prop) (m : M A) : Prop :=
  forall s a s', P s -> m s = Some (a, s') -> P s'.

(** Replays a list of actuator calls against the oracle, starting after
    [history] with the flag [off]: every call must ask for the opposite of
    what the flag says charging is, and the flag follows the calls that
    return 0.  Yields the flag at the end, or [None] when some call was
    redundant. *)
Fixpoint replay (rc : list bool -> bool -> Z) (history : list bool)
    (off : bool) (calls : list bool) : option bool :=
  match calls with
  | [] => Some off
  | enable :: rest =>
    if Bool.eqb enable off
    then replay rc (history ++ [enable])
           (if rc history enable =? 0 then negb enable else off) rest
    else None
  end.

(** The log is explained by the oracle and ends in the current flag. *)
Definition log_consistent (rc : list bool -> bool -> Z) (s : kstate) : Prop :=
  replay rc [] false (actuator_log s) = Some (charging_off s).

(** The calls take turns, starting with [next]. *)
Fixpoint alternates (next : bool) (calls : list bool) : bool :=
  match calls with
  | [] => true
  | enable :: rest => Bool.eqb enable next && alternates (negb next) rest
  end.


(** The delay the worker asks for, read off the sample and the state it
    starts in. *)
Definition expected_delay (batt_psy usb_psy : option power_supply)
    (s : kstate) : Z :=
  match snapshot batt_psy usb_psy with
  | None => 5000
  | Some (status, cap, usbc) =>
    if (charging_below s <? cap) && (charging_limit s <=? cap)
       && charging_or_usb status usbc && negb (charge_should_off s)
    then 10000 else 1000
  end.

(** Every call of [calls], made one after the other from [history] on,
    returns a non-zero code. *)
Fixpoint all_calls_fail (rc : list bool -> bool -> Z) (history : list bool)
    (calls : list bool) : Prop :=
  match calls with
  | [] => True
  | enable :: rest =>
      rc history enable <> 0 /\ all_calls_fail rc (history ++ [enable]) rest
  end.

(** ** Basic facts *)

Lemma started_state_reached (rc : list bool -> bool -> Z) :
  exec (run rc [WriteEnabled (Some 1) 2 true None]) initial_state
  = Some started_state.
Proof. reflexivity. Qed.

Lemma suppressed_state_reached (rc : list bool -> bool -> Z) :
  rc [] false = 0 ->
  exec (run rc [WriteEnabled (Some 1) 2 true None;
                Cycle (supply 1 100 1) (supply 0 0 1);
                Cycle (supply 1 100 1) (supply 0 0 1)]) initial_state
  = Some suppressed_state.
Proof.
  intros Hrc. cbv. rewrite Hrc. reflexivity.
Qed.

Lemma snapshot_worker (rc : list bool -> bool -> Z) batt_psy usb_psy status cap usbc :
  snapshot batt_psy usb_psy = Some (status, cap, usbc) ->
  charger_limiter_worker rc batt_psy usb_psy
  = (ms_timer <- charger_limiter_decide rc status cap usbc ;;
     reschedule_worker ms_timer).
Proof.
  unfold snapshot, charger_limiter_worker.
  destruct batt_psy as [[[bg|]]|], usb_psy as [[[ug|]]|]; try discriminate.
  intros H; injection H as <- <- <-. reflexivity.
Qed.

Lemma unavailable_worker (rc : list bool -> bool -> Z) batt_psy usb_psy :
  unavailable batt_psy usb_psy = true ->
  charger_limiter_worker rc batt_psy usb_psy = reschedule_worker 5000.
Proof.
  unfold unavailable, charger_limiter_worker.
  destruct batt_psy as [[[bg|]]|]; try discriminate; try reflexivity.
  destruct usb_psy as [[[ug|]]|]; try discriminate; reflexivity.
Qed.

(** The resume or stop rule fires exactly when the flag differs from the
    request, and records the new state only on a zero return code. *)
Lemma enable_disable_charging_call (rc : list bool -> bool -> Z) enable s :
  charging_off s = enable ->
  enable_disable_charging rc enable s
  = Some (tt, if rc (actuator_log s) enable =? 0
              then set_charging_off (negb enable) (log_actuator_call enable s)
              else log_actuator_call enable s).
Proof.
  intros H. unfold enable_disable_charging, bind, gets. rewrite H.
  destruct enable; cbn;
    unfold power_supply_set_charging_enabled, bind, gets, modify, ret; cbn;
    destruct (rc (actuator_log s) _ =? 0); reflexivity.
Qed.

Lemma enable_disable_charging_idle (rc : list bool -> bool -> Z) enable s :
  charging_off s = negb enable ->
  enable_disable_charging rc enable s = Some (tt, s).
Proof.
  intros H. unfold enable_disable_charging, bind, gets. rewrite H.
  destruct enable; reflexivity.
Qed.


Lemma enable_disable_charging_true (rc : list bool -> bool -> Z) s :
  enable_disable_charging rc true s = Some (tt, resume_effect rc s).
Proof.
  unfold resume_effect. destruct (charging_off s) eqn:Hoff.
  - now rewrite (enable_disable_charging_call rc true s Hoff).
  - now rewrite (enable_disable_charging_idle rc true s Hoff).
Qed.

Lemma enable_disable_charging_false (rc : list bool -> bool -> Z) s :
  enable_disable_charging rc false s = Some (tt, stop_effect rc s).
Proof.
  unfold stop_effect. destruct (charging_off s) eqn:Hoff.
  - now rewrite (enable_disable_charging_idle rc false s Hoff).
  - now rewrite (enable_disable_charging_call rc false s Hoff).
Qed.

Lemma resume_effect_config (rc : list bool -> bool -> Z) s :
  charging_below (resume_effect rc s) = charging_below s /\
  charging_limit (resume_effect rc s) = charging_limit s /\
  charge_should_off (resume_effect rc s) = charge_should_off s /\
  charge_limiter_wq (resume_effect rc s) = charge_limiter_wq s.
Proof.
  unfold resume_effect.
  destruct (charging_off s), (rc (actuator_log s) true =? 0); repeat split.
Qed.

Lemma stop_effect_config (rc : list bool -> bool -> Z) s :
  charging_below (stop_effect rc s) = charging_below s /\
  charging_limit (stop_effect rc s) = charging_limit s /\
  charge_should_off (stop_effect rc s) = charge_should_off s /\
  charge_limiter_wq (stop_effect rc s) = charge_limiter_wq s.
Proof.
  unfold stop_effect.
  destruct (charging_off s), (rc (actuator_log s) false =? 0); repeat split.
Qed.

(** *** The four ways through the decision *)

Lemma decide_low (rc : list bool -> bool -> Z) status cap usbc s :
  cap <= charging_below s ->
  charger_limiter_decide rc status cap usbc s
  = Some (1000, if charging_or_usb status usbc
                then resume_effect rc (resume_effect rc s)
                else resume_effect rc s).
Proof.
  intros Hlow. apply Z.leb_le in Hlow.
  unfold charger_limiter_decide, bind, gets. rewrite Hlow.
  rewrite enable_disable_charging_true.
  fold (charging_or_usb status usbc).
  destruct (charging_or_usb status usbc); [|reflexivity].
  destruct (resume_effect_config rc s) as [-> _]. rewrite Hlow.
  now rewrite enable_disable_charging_true.
Qed.

Lemma decide_idle (rc : list bool -> bool -> Z) status cap usbc s :
  charging_below s < cap ->
  charging_or_usb status usbc = false \/ cap < charging_limit s ->
  charger_limiter_decide rc status cap usbc s = Some (1000, s).
Proof.
  intros Hlow Hidle. apply Z.leb_gt in Hlow.
  unfold charger_limiter_decide, bind, gets, ret. rewrite Hlow.
  fold (charging_or_usb status usbc).
  destruct (charging_or_usb status usbc); [|reflexivity].
  destruct Hidle as [Hidle|Hidle]; [discriminate|].
  rewrite Hlow.
  replace (cap >=? charging_limit s) with false; [reflexivity|].
  symmetry. rewrite Z.geb_leb. apply Z.leb_gt. exact Hidle.
Qed.

Lemma decide_arm (rc : list bool -> bool -> Z) status cap usbc s :
  charging_below s < cap ->
  charging_limit s <= cap ->
  charging_or_usb status usbc = true ->
  charge_should_off s = false ->
  charger_limiter_decide rc status cap usbc s
  = Some (10000, set_charge_should_off true s).
Proof.
  intros Hlow Hhigh Hu Hpend. apply Z.leb_gt in Hlow.
  unfold charger_limiter_decide, bind, gets, ret, modify. rewrite Hlow.
  fold (charging_or_usb status usbc). rewrite Hu, Hlow.
  replace (cap >=? charging_limit s) with true
    by (symmetry; rewrite Z.geb_leb; apply Z.leb_le; exact Hhigh).
  now rewrite Hpend.
Qed.

Lemma decide_stop (rc : list bool -> bool -> Z) status cap usbc s :
  charging_below s < cap ->
  charging_limit s <= cap ->
  charging_or_usb status usbc = true ->
  charge_should_off s = true ->
  charger_limiter_decide rc status cap usbc s
  = Some (1000, set_charge_should_off false (stop_effect rc s)).
Proof.
  intros Hlow Hhigh Hu Hpend. apply Z.leb_gt in Hlow.
  unfold charger_limiter_decide, bind, gets, ret, modify. rewrite Hlow.
  fold (charging_or_usb status usbc). rewrite Hu, Hlow.
  replace (cap >=? charging_limit s) with true
    by (symmetry; rewrite Z.geb_leb; apply Z.leb_le; exact Hhigh).
  rewrite Hpend. now rewrite enable_disable_charging_false.
Qed.

(** A cycle with a sample is the decision followed by the rescheduling. *)
Lemma cycle_exec (rc : list bool -> bool -> Z) batt_psy usb_psy status cap usbc s ms s' :
  snapshot batt_psy usb_psy = Some (status, cap, usbc) ->
  charger_limiter_decide rc status cap usbc s = Some (ms, s') ->
  charge_limiter_wq s' = true ->
  exec (charger_limiter_worker rc batt_psy usb_psy) s
  = Some (set_pending_work (Some ms) s').
Proof.
  intros Hs Hd Hwq. rewrite (snapshot_worker rc _ _ _ _ _ Hs).
  unfold exec, bind. rewrite Hd.
  unfold reschedule_worker, queue_delayed_work, bind, gets, modify.
  now rewrite Hwq.
Qed.

(** ** The debounce at the upper threshold *)

(** C1: from Active, a cycle at or above charging_limit with charging
    reported or USB present makes no actuator call, arms the pending stop and
    asks for a 10000 ms delay; the next such cycle calls the actuator with
    [false] and disarms the pending stop. *)
Theorem debounce_two_cycles :
  forall (rc : list bool -> bool -> Z) (st : kstate)
         batt1 usb1 status1 cap1 usbc1 batt2 usb2 status2 cap2 usbc2,
    charge_limiter_wq st = true ->
    charging_below st < charging_limit st ->
    charging_off st = false ->
    charge_should_off st = false ->
    snapshot batt1 usb1 = Some (status1, cap1, usbc1) ->
    charging_limit st <= cap1 ->
    charging_or_usb status1 usbc1 = true ->
    snapshot batt2 usb2 = Some (status2, cap2, usbc2) ->
    charging_limit st <= cap2 ->
    charging_or_usb status2 usbc2 = true ->
    exists st1 st2,
      exec (charger_limiter_worker rc batt1 usb1) st = Some st1 /\
      actuator_log st1 = actuator_log st /\
      charging_off st1 = false /\
      charge_should_off st1 = true /\
      pending_work st1 = Some 10000 /\
      exec (charger_limiter_worker rc batt2 usb2) st1 = Some st2 /\
      actuator_log st2 = actuator_log st ++ [false] /\
      charge_should_off st2 = false /\
      charging_off st2 = (rc (actuator_log st) false =? 0).
Proof.
  intros rc st batt1 usb1 status1 cap1 usbc1 batt2 usb2 status2 cap2 usbc2
         Hwq Hgap Hoff Hpend Hs1 Hc1 Hu1 Hs2 Hc2 Hu2.
  set (st1 := set_pending_work (Some 10000) (set_charge_should_off true st)).
  assert (E1 : exec (charger_limiter_worker rc batt1 usb1) st = Some st1).
  { apply (cycle_exec rc _ _ _ _ _ _ _ _ Hs1); [|exact Hwq].
    apply decide_arm; auto; lia. }
  assert (E2 : exec (charger_limiter_worker rc batt2 usb2) st1
               = Some (set_pending_work (Some 1000)
                         (set_charge_should_off false (stop_effect rc st1)))).
  { apply (cycle_exec rc _ _ _ _ _ _ _ _ Hs2).
    - apply decide_stop; auto; cbn; lia.
    - cbn. destruct (stop_effect_config rc st1) as (_ & _ & _ & ->). exact Hwq. }
  exists st1. eexists. split; [exact E1|].
  repeat (split; [first [reflexivity | assumption]|]).
  split; [exact E2|].
  unfold stop_effect. subst st1. cbn -[Z.eqb]. rewrite Hoff.
  destruct (rc (actuator_log st) false =? 0); repeat split; exact Hoff.
Qed.

Lemma debounce_two_cycles_witness :
  exists st1 st2,
    exec (charger_limiter_worker (fun _ _ => 0) (supply 1 100 0) (supply 0 0 1))
         started_state = Some st1 /\
    actuator_log st1 = actuator_log started_state /\
    charging_off st1 = false /\
    charge_should_off st1 = true /\
    pending_work st1 = Some 10000 /\
    exec (charger_limiter_worker (fun _ _ => 0) (supply 2 100 0) (supply 0 0 1))
         st1 = Some st2 /\
    actuator_log st2 = actuator_log started_state ++ [false] /\
    charge_should_off st2 = false /\
    charging_off st2 = (0 =? 0).
Proof.
  apply (debounce_two_cycles (fun _ _ => 0) started_state
           (supply 1 100 0) (supply 0 0 1) 1 100 1
           (supply 2 100 0) (supply 0 0 1) 2 100 1);
    solve [reflexivity | cbn; lia].
Defined.

(** ** A cycle without a usable sample *)

(** A cycle that finds a supply without its [get_property] callback, before
    dereferencing any NULL supply, makes no actuator call, leaves
    charging_off and charge_should_off as they were, and asks for a 5000 ms
    delay. *)
Theorem unavailable_cycle_no_mutation :
  forall (rc : list bool -> bool -> Z) (st : kstate) batt_psy usb_psy,
    charge_limiter_wq st = true ->
    unavailable batt_psy usb_psy = true ->
    exists st',
      exec (charger_limiter_worker rc batt_psy usb_psy) st = Some st' /\
      actuator_log st' = actuator_log st /\
      charging_off st' = charging_off st /\
      charge_should_off st' = charge_should_off st /\
      pending_work st' = Some 5000.
Proof.
  intros rc st batt_psy usb_psy Hwq Hun.
  rewrite (unavailable_worker rc _ _ Hun).
  exists (set_pending_work (Some 5000) st).
  unfold exec, reschedule_worker, queue_delayed_work, bind, gets, modify.
  rewrite Hwq. repeat split; reflexivity.
Qed.

Lemma unavailable_cycle_no_mutation_witness :
  exists st',
    exec (charger_limiter_worker (fun _ _ => 0) (supply 1 100 0) supply_not_ready)
         started_state = Some st' /\
    actuator_log st' = actuator_log started_state /\
    charging_off st' = charging_off started_state /\
    charge_should_off st' = charge_should_off started_state /\
    pending_work st' = Some 5000.
Proof.
  apply (unavailable_cycle_no_mutation (fun _ _ => 0) started_state
           (supply 1 100 0) supply_not_ready); reflexivity.
Defined.

(** C8 at the samples the code cannot take: when the battery supply is not
    found, or it is usable and the USB supply is not found, the cycle
    dereferences the NULL supply in its first test and never reaches the
    rescheduling, whatever the state and the actuator are; no 5000 ms delay
    is asked for. *)
Theorem null_supply_cycle_faults :
  forall (rc : list bool -> bool -> Z) (st : kstate)
         (usb_psy : option power_supply)
         (batt_get : power_supply_property -> Z),
    snapshot None usb_psy = None /\
    exec (charger_limiter_worker rc None usb_psy) st = None /\
    snapshot (Some (mk_power_supply (Some batt_get))) None = None /\
    exec (charger_limiter_worker rc
            (Some (mk_power_supply (Some batt_get))) None) st = None.
Proof.
  intros rc st usb_psy batt_get. repeat split.
Qed.

(** ** The threshold writes *)

Lemma int_of_small (z : Z) : - 2 ^ 31 <= z < 2 ^ 31 -> int_of z = z.
Proof.
  intros H. unfold int_of. rewrite Z.mod_small; lia.
Qed.

Lemma clamped_input_range (v : Z) :
  0 <= (if uint_of v >? 100 then 100 else uint_of v) <= 100.
Proof.
  assert (H : 0 <= uint_of v) by (unfold uint_of; apply Z.mod_pos_bound; lia).
  destruct (uint_of v >? 100) eqn:E; [lia|].
  rewrite Z.gtb_ltb in E. apply Z.ltb_ge in E. lia.
Qed.

Lemma store_charging_below_ok scanned count s :
  thresholds_ok s ->
  exists r s',
    store_charging_below scanned count s = Some (r, s') /\
    thresholds_ok s' /\
    charging_limit s' = charging_limit s.
Proof.
  intros (Hb & Hl & Hlt). destruct scanned as [v|]; cbn.
  2:{ exists (- EINVAL), s. repeat split; auto; lia. }
  unfold store_charging_below, bind, gets, modify, ret. cbn -[Z.geb int_of].
  pose proof (clamped_input_range v) as Hin.
  set (input := if uint_of v >? 100 then 100 else uint_of v) in *.
  rewrite (int_of_small input) by lia.
  rewrite Z.geb_leb.
  destruct (charging_limit s <=? input) eqn:E; cbn -[int_of];
    eexists; eexists; (split; [reflexivity|]).
  - apply Z.leb_le in E. unfold thresholds_ok. cbn -[int_of].
    rewrite int_of_small by lia. lia.
  - apply Z.leb_gt in E. unfold thresholds_ok. cbn. lia.
Qed.

Lemma store_charging_limit_ok scanned count s :
  thresholds_ok s ->
  exists r s',
    store_charging_limit scanned count s = Some (r, s') /\
    thresholds_ok s' /\
    charging_below s' = charging_below s.
Proof.
  intros (Hb & Hl & Hlt). destruct scanned as [v|]; cbn.
  2:{ exists (- EINVAL), s. repeat split; auto; lia. }
  unfold store_charging_limit, bind, gets, modify, ret. cbn -[Z.leb int_of].
  pose proof (clamped_input_range v) as Hin.
  set (input := if uint_of v >? 100 then 100 else uint_of v) in *.
  rewrite (int_of_small input) by lia.
  destruct (input <=? charging_below s) eqn:E; cbn -[int_of];
    eexists; eexists; (split; [reflexivity|]).
  - apply Z.leb_le in E. unfold thresholds_ok. cbn -[int_of].
    rewrite int_of_small by lia. lia.
  - apply Z.leb_gt in E. unfold thresholds_ok. cbn. lia.
Qed.

Lemma initial_thresholds_ok : thresholds_ok initial_state.
Proof. unfold thresholds_ok; cbn; lia. Qed.

Lemma write_step_ok (rc : list bool -> bool -> Z) w s :
  thresholds_ok s ->
  exists s', exec (step rc (write_event w)) s = Some s' /\ thresholds_ok s'.
Proof.
  intros Hok. destruct w as [scanned count|scanned count]; cbn [write_event step].
  - destruct (store_charging_below_ok scanned count s Hok) as (r & s' & E & Hok' & _).
    exists s'. unfold exec, bind. rewrite E. now split.
  - destruct (store_charging_limit_ok scanned count s Hok) as (r & s' & E & Hok' & _).
    exists s'. unfold exec, bind. rewrite E. now split.
Qed.

Lemma exec_run_cons (rc : list bool -> bool -> Z) e es s s' :
  exec (step rc e) s = Some s' ->
  exec (run rc (e :: es)) s = exec (run rc es) s'.
Proof.
  unfold exec. cbn [run]. unfold bind.
  destruct (step rc e s) as [[u s1]|]; [|discriminate].
  intros H; injection H as ->. reflexivity.
Qed.

Lemma writes_keep_thresholds (rc : list bool -> bool -> Z) ws :
  forall s, thresholds_ok s ->
  exists s', exec (run rc (map write_event ws)) s = Some s' /\ thresholds_ok s'.
Proof.
  induction ws as [|w ws IH]; intros s Hok.
  - exists s. now split.
  - destruct (write_step_ok rc w s Hok) as (s1 & E1 & Hok1).
    destruct (IH s1 Hok1) as (s' & E' & Hok').
    exists s'. split; [|exact Hok'].
    cbn [map]. now rewrite (exec_run_cons rc _ _ _ _ E1).
Qed.

(** C2, as the code has it: after any sequence of writes to charging_below
    and charging_limit, every write goes through and charging_below stays
    strictly under charging_limit; the distance is at least 1, not 5. *)
Theorem writes_keep_below_under_limit :
  forall (rc : list bool -> bool -> Z) (ws : list threshold_write),
  exists st,
    exec (run rc (map write_event ws)) initial_state = Some st /\
    charging_limit st - charging_below st >= 1.
Proof.
  intros rc ws.
  destruct (writes_keep_thresholds rc ws initial_state initial_thresholds_ok)
    as (st & E & _ & _ & Hlt).
  exists st. split; [exact E | lia].
Qed.

(** C2 fails as stated: writing 99 to charging_below with the defaults in
    place leaves a distance of 1. *)
Lemma gap_of_five_not_kept :
  exists st,
    exec (run (fun _ _ => 0) (map write_event [SetBelow (Some 99) 3]))
         initial_state = Some st /\
    charging_below st = 99 /\
    charging_limit st = 100 /\
    ~ (charging_limit st - charging_below st >= 5).
Proof.
  eexists. split; [reflexivity|]. cbn. repeat split; lia.
Qed.

(** C9 at two runs of writes: the fix-up after the clamp takes
    charging_limit above 100 and charging_below under 0. *)
Theorem thresholds_leave_percent_range :
  (exists st,
     exec (run (fun _ _ => 0)
             (map write_event [SetBelow (Some 96) 3; SetLimit (Some 10) 3]))
          initial_state = Some st /\
     charging_below st = 96 /\ charging_limit st = 101) /\
  (exists st,
     exec (run (fun _ _ => 0)
             (map write_event [SetBelow (Some 0) 2; SetLimit (Some 1) 2;
                               SetBelow (Some 1) 2]))
          initial_state = Some st /\
     charging_below st = -4 /\ charging_limit st = 1).
Proof.
  split; eexists; (split; [reflexivity|]); cbn; split; reflexivity.
Qed.

(** ** Turning the limiter off *)

Lemma stop_charger_limiter_exec (rc : list bool -> bool -> Z) batt s :
  charge_limiter_wq s = true ->
  stop_charger_limiter rc (Some batt) s
  = Some (tt, resume_effect rc (set_pending_work None s)).
Proof.
  intros Hwq.
  unfold stop_charger_limiter, cancel_delayed_work_sync, destroy_workqueue,
    bind, gets, modify, ret. cbn [charge_limiter_wq set_pending_work].
  rewrite Hwq. now rewrite enable_disable_charging_true.
Qed.

(** C3, as the code has it: writing 0 to enabled while the loop runs, with
    the battery supply found, goes through the resume rule once: the actuator
    is called with [true] exactly once when charging_off is set and not at
    all when it is clear; charging_off is cleared when that call returns 0;
    the pending work is cancelled. *)
Theorem disable_resumes_through_rule :
  forall (rc : list bool -> bool -> Z) (st : kstate) v count alloc_ok batt,
    cl_is_enabled st = true ->
    charge_limiter_wq st = true ->
    uint_of v = 0 ->
    exists st',
      store_enabled rc (Some v) count alloc_ok (Some batt) st
      = Some (count, st') /\
      actuator_log st'
      = actuator_log st ++ (if charging_off st then [true] else []) /\
      charging_off st'
      = charging_off st && negb (rc (actuator_log st) true =? 0) /\
      cl_is_enabled st' = false /\
      pending_work st' = None.
Proof.
  intros rc st v count alloc_ok batt Hrun Hwq Hv.
  unfold store_enabled. rewrite Hv. change (int_of 0) with 0.
  unfold bind at 1. unfold modify at 1.
  unfold bind at 1. unfold gets at 1. cbn [enabled set_enabled].
  unfold bind at 1. unfold gets at 1. cbn [cl_is_enabled set_enabled].
  rewrite Hrun. change (negb (0 =? 0)) with false. cbv iota.
  unfold bind at 1. unfold bind at 1.
  rewrite stop_charger_limiter_exec by exact Hwq.
  unfold modify, ret. eexists. split; [reflexivity|].
  unfold resume_effect. cbn -[Z.eqb].
  destruct (charging_off st) eqn:Hoff; cbn -[Z.eqb].
  - destruct (rc (actuator_log st) true =? 0); repeat split; exact Hoff.
  - rewrite app_nil_r. repeat split; exact Hoff.
Qed.

Lemma disable_resumes_through_rule_witness :
  exists st',
    store_enabled (fun _ _ => 0) (Some 0) 2 false (Some (mk_power_supply None))
      suppressed_state
    = Some (2, st') /\
    actuator_log st' = [false] ++ [true] /\
    charging_off st' = true && negb (0 =? 0) /\
    cl_is_enabled st' = false /\
    pending_work st' = None.
Proof.
  apply (disable_resumes_through_rule (fun _ _ => 0)
           suppressed_state 0 2 false
           (mk_power_supply None)); reflexivity.
Defined.

(** C3 fails as stated: with charging_off clear, turning the loop off makes
    no actuator call at all; and with the battery supply not found, none is
    made even when charging_off is set. *)
Lemma disable_without_actuator_call :
  (exists st',
     exec (store_enabled (fun _ _ => 0) (Some 0) 2 false (supply 1 50 1))
          started_state = Some st' /\
     cl_is_enabled st' = false /\
     actuator_log st' = actuator_log started_state) /\
  (exists st',
     exec (store_enabled (fun _ _ => 0) (Some 0) 2 false None)
          suppressed_state = Some st' /\
     cl_is_enabled st' = false /\
     actuator_log st' = actuator_log suppressed_state /\
     charging_off st' = true).
Proof.
  split; eexists; (split; [reflexivity|]); repeat split.
Qed.

(** ** The control states a run goes through *)

Lemma decide_cases (rc : list bool -> bool -> Z) status cap usbc s :
  exists ms s',
    charger_limiter_decide rc status cap usbc s = Some (ms, s') /\
    decision rc status cap usbc s ms s'.
Proof.
  destruct (Z_le_gt_dec cap (charging_below s)) as [Hlow|Hlow].
  { eexists; eexists; split;
      [apply decide_low; exact Hlow | constructor; exact Hlow]. }
  assert (Hlow' : charging_below s < cap) by lia.
  destruct (charging_or_usb status usbc) eqn:Hu.
  2:{ exists 1000, s. split; [apply decide_idle|constructor]; auto. }
  destruct (Z_le_gt_dec (charging_limit s) cap) as [Hhigh|Hhigh].
  2:{ exists 1000, s. split; [apply decide_idle|constructor]; auto; right; lia. }
  destruct (charge_should_off s) eqn:Hpend.
  - eexists; eexists; split; [apply decide_stop|constructor]; auto.
  - eexists; eexists; split; [apply decide_arm|constructor]; auto.
Qed.

Lemma decision_keeps (rc : list bool -> bool -> Z) status cap usbc s ms s' :
  decision rc status cap usbc s ms s' ->
  charge_limiter_wq s' = charge_limiter_wq s /\
  charging_below s' = charging_below s /\
  charging_limit s' = charging_limit s.
Proof.
  intros D. destruct D.
  - destruct (resume_effect_config rc s) as (B & L & _ & W).
    destruct (resume_effect_config rc (resume_effect rc s)) as (B' & L' & _ & W').
    destruct (charging_or_usb status usbc); repeat split; congruence.
  - destruct (stop_effect_config rc s) as (B & L & _ & W). cbn. auto.
  - cbn. auto.
  - auto.
Qed.

(** Every cycle with a sample runs to its rescheduling. *)
Lemma cycle_cases (rc : list bool -> bool -> Z) batt_psy usb_psy status cap usbc s :
  snapshot batt_psy usb_psy = Some (status, cap, usbc) ->
  charge_limiter_wq s = true ->
  exists ms s',
    decision rc status cap usbc s ms s' /\
    exec (charger_limiter_worker rc batt_psy usb_psy) s
    = Some (set_pending_work (Some ms) s').
Proof.
  intros Hs Hwq.
  destruct (decide_cases rc status cap usbc s) as (ms & s' & E & D).
  exists ms, s'. split; [exact D|].
  apply (cycle_exec rc _ _ _ _ _ _ _ _ Hs E).
  destruct (decision_keeps rc _ _ _ _ _ _ D) as (-> & _). exact Hwq.
Qed.

Lemma resume_effect_off (rc : list bool -> bool -> Z) s :
  charging_off s = false -> resume_effect rc s = s.
Proof. intros H. unfold resume_effect. now rewrite H. Qed.

Lemma stop_effect_on (rc : list bool -> bool -> Z) s :
  charging_off s = true -> stop_effect rc s = s.
Proof. intros H. unfold stop_effect. now rewrite H. Qed.

(** C4, as the code has it: the cycle in which charging_off goes from clear
    to set ends with charge_should_off clear. *)
Theorem suppressing_cycle_clears_pending_stop :
  forall (rc : list bool -> bool -> Z) (st st' : kstate) batt_psy usb_psy,
    exec (charger_limiter_worker rc batt_psy usb_psy) st = Some st' ->
    charging_off st = false ->
    charging_off st' = true ->
    charge_should_off st' = false.
Proof.
  intros rc st st' batt_psy usb_psy E Hoff Hoff'.
  destruct (snapshot batt_psy usb_psy) as [[[status cap] usbc]|] eqn:Hs.
  - rewrite (snapshot_worker rc _ _ _ _ _ Hs) in E.
    destruct (decide_cases rc status cap usbc st) as (ms & s1 & Ed & D).
    unfold exec, bind in E. rewrite Ed in E.
    unfold reschedule_worker, queue_delayed_work, bind, gets, modify in E.
    destruct (charge_limiter_wq s1); [|discriminate].
    injection E as <-. cbn in Hoff' |- *.
    destruct D as [Hlow|? ? ? ?|? ? ? Hpend|? ?].
    + rewrite !(resume_effect_off rc st Hoff) in Hoff'.
      destruct (charging_or_usb status usbc); congruence.
    + reflexivity.
    + cbn in Hoff'. congruence.
    + congruence.
  - unfold snapshot, charger_limiter_worker, exec in *.
    destruct batt_psy as [[[bg|]]|], usb_psy as [[[ug|]]|];
      try discriminate Hs;
      unfold reschedule_worker, queue_delayed_work, bind, gets, modify, oops in E;
      cbn in E; destruct (charge_limiter_wq st); try discriminate E;
      injection E as <-; cbn in Hoff'; congruence.
Qed.

Lemma suppressing_cycle_clears_pending_stop_witness :
  charge_should_off suppressed_state = false.
Proof.
  apply (suppressing_cycle_clears_pending_stop never_fails
           (set_charge_should_off true started_state) suppressed_state
           (supply 1 100 1) (supply 0 0 1)); reflexivity.
Defined.

(** C4 fails as stated: after the loop is started, three cycles at 100 percent
    with USB present go from (false,false) over (false,true) and (true,false)
    to (true,true). *)
Lemma suppressed_and_armed_reached :
  exists st,
    exec (run never_fails
            [WriteEnabled (Some 1) 2 true None;
             Cycle (supply 1 100 1) (supply 0 0 1);
             Cycle (supply 1 100 1) (supply 0 0 1);
             Cycle (supply 1 100 1) (supply 0 0 1)])
         initial_state = Some st /\
    charging_off st = true /\
    charge_should_off st = true.
Proof.
  exists (set_pending_work (Some 10000)
            (set_charge_should_off true suppressed_state)).
  split; [vm_compute; reflexivity|]. split; reflexivity.
Qed.

(** ** Resuming at the lower threshold *)

Lemma low_cycle_exec (rc : list bool -> bool -> Z) batt_psy usb_psy status cap usbc s :
  snapshot batt_psy usb_psy = Some (status, cap, usbc) ->
  charge_limiter_wq s = true ->
  cap <= charging_below s ->
  exec (charger_limiter_worker rc batt_psy usb_psy) s
  = Some (set_pending_work (Some 1000)
            (if charging_or_usb status usbc
             then resume_effect rc (resume_effect rc s)
             else resume_effect rc s)).
Proof.
  intros Hs Hwq Hlow.
  apply (cycle_exec rc _ _ _ _ _ _ _ _ Hs (decide_low rc _ _ _ _ Hlow)).
  destruct (resume_effect_config rc s) as (_ & _ & _ & W).
  destruct (resume_effect_config rc (resume_effect rc s)) as (_ & _ & _ & W').
  destruct (charging_or_usb status usbc); congruence.
Qed.

(** Where the resume rule leaves the flag in a cycle at or under
    charging_below. *)
Lemma low_cycle_flag (rc : list bool -> bool -> Z) status usbc s :
  charging_off (if charging_or_usb status usbc
                then resume_effect rc (resume_effect rc s)
                else resume_effect rc s)
  = negb (resume_goes_through rc s status usbc).
Proof.
  unfold resume_goes_through, resume_effect.
  destruct (charging_off s) eqn:Hoff; cbn -[Z.eqb].
  - destruct (rc (actuator_log s) true =? 0) eqn:R1; cbn -[Z.eqb].
    + destruct (charging_or_usb status usbc); reflexivity.
    + destruct (charging_or_usb status usbc); cbn -[Z.eqb]; rewrite ?Hoff;
        [|reflexivity].
      destruct (rc (actuator_log s ++ [true]) true =? 0); cbn; auto.
  - destruct (charging_or_usb status usbc); rewrite ?Hoff; auto.
Qed.

(** C5, as the code has it: a cycle with a sample at or under charging_below
    ends with charging_off clear whenever charging was not off before or one
    of the cycle's calls of the actuator with [true] returns 0, whatever
    charge_should_off, the status and the USB reading are. *)
Theorem resume_dominance :
  forall (rc : list bool -> bool -> Z) (st : kstate)
         batt_psy usb_psy status cap usbc,
    charge_limiter_wq st = true ->
    snapshot batt_psy usb_psy = Some (status, cap, usbc) ->
    cap <= charging_below st ->
    resume_goes_through rc st status usbc = true ->
    exists st',
      exec (charger_limiter_worker rc batt_psy usb_psy) st = Some st' /\
      charging_off st' = false.
Proof.
  intros rc st batt_psy usb_psy status cap usbc Hwq Hs Hlow Hres.
  eexists. split; [apply (low_cycle_exec rc _ _ _ _ _ _ Hs Hwq Hlow)|].
  cbn [charging_off set_pending_work].
  rewrite low_cycle_flag, Hres. reflexivity.
Qed.

Lemma resume_dominance_witness :
  exists st',
    exec (charger_limiter_worker fails_second_only (supply 1 50 0) (supply 0 0 0))
         (set_charge_should_off true suppressed_state)
    = Some st' /\
    charging_off st' = false.
Proof.
  apply (resume_dominance fails_second_only
           (set_charge_should_off true suppressed_state)
           (supply 1 50 0) (supply 0 0 0) 1 50 0);
    solve [reflexivity | cbn; lia].
Defined.

(** C5 fails as stated: the loop is started and two cycles at 100 percent
    switch charging off; the actuator fails from then on, and a cycle at 50
    percent (under the default charging_below of 95) calls it twice with
    [true] and still ends with charging_off set. *)
Lemma resume_blocked_by_actuator :
  exists st st',
    exec (run fails_after_first
            [WriteEnabled (Some 1) 2 true None;
             Cycle (supply 1 100 1) (supply 0 0 1);
             Cycle (supply 1 100 1) (supply 0 0 1)])
         initial_state = Some st /\
    exec (charger_limiter_worker fails_after_first
            (supply 1 50 1) (supply 0 0 1)) st = Some st' /\
    50 <= charging_below st /\
    actuator_log st' = [false; true; true] /\
    charging_off st' = true.
Proof.
  exists suppressed_state. eexists.
  split; [apply suppressed_state_reached; reflexivity|].
  split; [reflexivity|].
  split; [cbn; lia|]. split; reflexivity.
Qed.

(** ** Actuator failures *)

Lemma failed_call_keeps_flag (rc : list bool -> bool -> Z) enable s :
  rc (actuator_log s) enable <> 0 ->
  exists s',
    enable_disable_charging rc enable s = Some (tt, s') /\
    charging_off s' = charging_off s.
Proof.
  intros Hrc. apply Z.eqb_neq in Hrc.
  destruct (Bool.bool_dec (charging_off s) enable) as [E|E].
  - rewrite (enable_disable_charging_call rc enable s E), Hrc.
    eexists. split; reflexivity.
  - rewrite (enable_disable_charging_idle rc enable s).
    + eexists. split; reflexivity.
    + destruct (charging_off s), enable; cbn; congruence.
Qed.

Lemma failing_resume_effect (rc : list bool -> bool -> Z) s :
  rc (actuator_log s) true <> 0 ->
  charging_off (resume_effect rc s) = charging_off s /\
  exists calls, actuator_log (resume_effect rc s) = actuator_log s ++ calls.
Proof.
  intros Hrc. apply Z.eqb_neq in Hrc. unfold resume_effect. rewrite Hrc.
  destruct (charging_off s) eqn:Hoff.
  - split; [exact Hoff|]. exists [true]. reflexivity.
  - split; [exact Hoff|]. exists []. now rewrite app_nil_r.
Qed.

Lemma failing_stop_effect (rc : list bool -> bool -> Z) s :
  rc (actuator_log s) false <> 0 ->
  charging_off (stop_effect rc s) = charging_off s.
Proof.
  intros Hrc. apply Z.eqb_neq in Hrc. unfold stop_effect. rewrite Hrc.
  destruct (charging_off s) eqn:Hoff; exact Hoff.
Qed.

Lemma resume_effect_failing (rc : list bool -> bool -> Z) s :
  exists calls,
    actuator_log (resume_effect rc s) = actuator_log s ++ calls /\
    (all_calls_fail rc (actuator_log s) calls ->
     charging_off (resume_effect rc s) = charging_off s) /\
    (calls = [] \/
     calls = [true] /\
     (rc (actuator_log s) true <> 0 ->
      charging_off (resume_effect rc s) = true)).
Proof.
  unfold resume_effect. destruct (charging_off s) eqn:Hoff.
  - exists [true]. destruct (rc (actuator_log s) true =? 0) eqn:R.
    + apply Z.eqb_eq in R. split; [reflexivity|]. split.
      * intros (Hfail & _). contradiction.
      * right. split; [reflexivity|]. intros Hfail. contradiction.
    + split; [reflexivity|]. split; [intros _; exact Hoff|].
      right. split; [reflexivity|]. intros _. exact Hoff.
  - exists []. rewrite app_nil_r. split; [reflexivity|].
    split; [intros _; exact Hoff | now left].
Qed.

Lemma stop_effect_failing (rc : list bool -> bool -> Z) s :
  exists calls,
    actuator_log (stop_effect rc s) = actuator_log s ++ calls /\
    (all_calls_fail rc (actuator_log s) calls ->
     charging_off (stop_effect rc s) = charging_off s).
Proof.
  unfold stop_effect. destruct (charging_off s) eqn:Hoff.
  - exists []. rewrite app_nil_r. split; [reflexivity | intros _; exact Hoff].
  - exists [false]. destruct (rc (actuator_log s) false =? 0) eqn:R.
    + apply Z.eqb_eq in R. split; [reflexivity|].
      intros (Hfail & _). contradiction.
    + split; [reflexivity | intros _; exact Hoff].
Qed.

(** C7, as the code has it: in a cycle that dereferences no NULL supply,
    when every actuator call the cycle makes returns non-zero (whatever the
    actuator answers at other times), charging_off is left as it was; and
    the cycle reschedules in any case, at 1000 ms when it had a sample and
    did not just arm the pending stop, else at 10000 or 5000 ms with no
    call made. *)
Theorem failed_actuation_keeps_flag :
  forall (rc : list bool -> bool -> Z) (st : kstate)
         (batt_psy usb_psy : option power_supply),
    charge_limiter_wq st = true ->
    snapshot batt_psy usb_psy <> None \/ unavailable batt_psy usb_psy = true ->
    exists st' calls,
      exec (charger_limiter_worker rc batt_psy usb_psy) st = Some st' /\
      actuator_log st' = actuator_log st ++ calls /\
      (all_calls_fail rc (actuator_log st) calls ->
       charging_off st' = charging_off st) /\
      (pending_work st' = Some 1000 \/
       (pending_work st' = Some 10000 \/ pending_work st' = Some 5000) /\
       calls = []).
Proof.
  intros rc st batt_psy usb_psy Hwq Hsample.
  destruct (snapshot batt_psy usb_psy) as [[[status cap] usbc]|] eqn:Hs.
  2:{ destruct Hsample as [Hs'|Hun]; [contradiction|].
      exists (set_pending_work (Some 5000) st), [].
      rewrite (unavailable_worker rc _ _ Hun).
      unfold exec, reschedule_worker, queue_delayed_work, bind, gets, modify.
      rewrite Hwq, app_nil_r. repeat split. right. split; [now right|reflexivity]. }
  destruct (cycle_cases rc _ _ _ _ _ st Hs Hwq) as (ms & s1 & D & E).
  exists (set_pending_work (Some ms) s1).
  cbn [actuator_log charging_off pending_work set_pending_work].
  destruct D as [Hlow|? ? ? ?|? ? ? Hpend|? ?].
  - destruct (resume_effect_failing rc st) as (c1 & L1 & F1 & K1).
    destruct (charging_or_usb status usbc).
    + destruct (resume_effect_failing rc (resume_effect rc st))
        as (c2 & L2 & F2 & K2).
      exists (c1 ++ c2). split; [exact E|]. split.
      { rewrite L2, L1, <- app_assoc. reflexivity. }
      split; [|now left].
      destruct K1 as [-> | (-> & K1)].
      * cbn [app]. rewrite L1, app_nil_r in F2. intros Hfail.
        rewrite (F2 Hfail). apply F1. exact I.
      * destruct K2 as [-> | (-> & K2)].
        -- intros Hfail. rewrite (F2 I). apply F1.
           cbn in Hfail |- *. tauto.
        -- intros (Hf1 & Hf2 & _). rewrite L1 in F2.
           rewrite F2 by (split; [exact Hf2 | exact I]).
           apply F1. split; [exact Hf1 | exact I].
    + exists c1. split; [exact E|]. split; [exact L1|].
      split; [exact F1 | now left].
  - destruct (stop_effect_failing rc st) as (c & L & F).
    exists c. split; [exact E|].
    cbn [actuator_log charging_off set_charge_should_off].
    split; [exact L|]. split; [exact F | now left].
  - exists []. split; [exact E|]. cbn. rewrite app_nil_r.
    repeat split. right. split; [now left | reflexivity].
  - exists []. split; [exact E|]. rewrite app_nil_r.
    repeat split. now left.
Qed.

Lemma failed_actuation_keeps_flag_witness :
  exists st' calls,
    exec (charger_limiter_worker
            (fun history _ =>
               match history with [_] | [_; _] => -5 | _ => 0 end)
            (supply 1 50 1) (supply 0 0 1)) suppressed_state = Some st' /\
    actuator_log st' = actuator_log suppressed_state ++ calls /\
    (all_calls_fail
       (fun history _ => match history with [_] | [_; _] => -5 | _ => 0 end)
       (actuator_log suppressed_state) calls ->
     charging_off st' = charging_off suppressed_state) /\
    (pending_work st' = Some 1000 \/
     (pending_work st' = Some 10000 \/ pending_work st' = Some 5000) /\
     calls = []).
Proof.
  apply (failed_actuation_keeps_flag
           (fun history _ => match history with [_] | [_; _] => -5 | _ => 0 end)
           suppressed_state (supply 1 50 1) (supply 0 0 1));
    [reflexivity | left; discriminate].
Defined.

(** C7 fails as stated: at or under charging_below with charging reported,
    the resume rule runs twice in one cycle.  After the loop is started and
    two cycles at 100 percent have switched charging off, a cycle at 50
    percent whose first call fails and whose second call succeeds has seen a
    failure of the resume rule and has changed charging_off. *)
Lemma failed_call_then_flag_changes :
  exists st st',
    exec (run fails_second_only
            [WriteEnabled (Some 1) 2 true None;
             Cycle (supply 1 100 1) (supply 0 0 1);
             Cycle (supply 1 100 1) (supply 0 0 1)])
         initial_state = Some st /\
    exec (charger_limiter_worker fails_second_only
            (supply 1 50 0) (supply 0 0 0)) st = Some st' /\
    fails_second_only (actuator_log st) true <> 0 /\
    actuator_log st' = actuator_log st ++ [true; true] /\
    charging_off st = true /\
    charging_off st' = false.
Proof.
  exists suppressed_state. eexists.
  split; [apply suppressed_state_reached; reflexivity|].
  split; [reflexivity|].
  split; [discriminate|]. repeat split.
Qed.

(** ** A pending stop outlives a resume *)

Lemma stop_cycle_exec (rc : list bool -> bool -> Z) batt_psy usb_psy status cap usbc s :
  snapshot batt_psy usb_psy = Some (status, cap, usbc) ->
  charge_limiter_wq s = true ->
  charging_below s < cap ->
  charging_limit s <= cap ->
  charging_or_usb status usbc = true ->
  charge_should_off s = true ->
  exec (charger_limiter_worker rc batt_psy usb_psy) s
  = Some (set_pending_work (Some 1000)
            (set_charge_should_off false (stop_effect rc s))).
Proof.
  intros Hs Hwq Hlow Hhigh Hu Hpend.
  apply (cycle_exec rc _ _ _ _ _ _ _ _ Hs
           (decide_stop rc _ _ _ _ Hlow Hhigh Hu Hpend)).
  cbn. destruct (stop_effect_config rc s) as (_ & _ & _ & ->). exact Hwq.
Qed.

Lemma stop_effect_call (rc : list bool -> bool -> Z) s :
  charging_off s = false ->
  actuator_log (stop_effect rc s) = actuator_log s ++ [false] /\
  charging_off (stop_effect rc s) = (rc (actuator_log s) false =? 0).
Proof.
  intros Hoff. unfold stop_effect. rewrite Hoff.
  destruct (rc (actuator_log s) false =? 0); split; auto.
Qed.

(** C10: a resume leaves charge_should_off as it is.  From a state with
    charge_should_off set, after a cycle at or under charging_below whose
    resume goes through, one cycle at or above charging_limit with charging
    reported or USB present calls the actuator with [false] at once. *)
Theorem pending_stop_survives_resume :
  forall (rc : list bool -> bool -> Z) (st : kstate)
         batt1 usb1 status1 cap1 usbc1 batt2 usb2 status2 cap2 usbc2,
    charge_limiter_wq st = true ->
    charging_below st < charging_limit st ->
    charge_should_off st = true ->
    snapshot batt1 usb1 = Some (status1, cap1, usbc1) ->
    cap1 <= charging_below st ->
    resume_goes_through rc st status1 usbc1 = true ->
    snapshot batt2 usb2 = Some (status2, cap2, usbc2) ->
    charging_limit st <= cap2 ->
    charging_or_usb status2 usbc2 = true ->
    exists st1 st2,
      exec (charger_limiter_worker rc batt1 usb1) st = Some st1 /\
      charging_off st1 = false /\
      charge_should_off st1 = true /\
      exec (charger_limiter_worker rc batt2 usb2) st1 = Some st2 /\
      actuator_log st2 = actuator_log st1 ++ [false] /\
      charge_should_off st2 = false /\
      pending_work st2 = Some 1000.
Proof.
  intros rc st batt1 usb1 status1 cap1 usbc1 batt2 usb2 status2 cap2 usbc2
         Hwq Hgap Hpend Hs1 Hlow Hres Hs2 Hhigh Hu2.
  pose proof (low_cycle_exec rc _ _ _ _ _ _ Hs1 Hwq Hlow) as E1.
  pose proof (low_cycle_flag rc status1 usbc1 st) as F1.
  rewrite Hres in F1. cbn [negb] in F1.
  set (mid := if charging_or_usb status1 usbc1
              then resume_effect rc (resume_effect rc st)
              else resume_effect rc st) in *.
  assert (K : charging_below mid = charging_below st /\
              charging_limit mid = charging_limit st /\
              charge_should_off mid = charge_should_off st /\
              charge_limiter_wq mid = charge_limiter_wq st).
  { subst mid.
    destruct (resume_effect_config rc st) as (B & L & P & W).
    destruct (resume_effect_config rc (resume_effect rc st))
      as (B' & L' & P' & W').
    destruct (charging_or_usb status1 usbc1); repeat split; congruence. }
  destruct K as (KB & KL & KP & KW).
  set (st1 := set_pending_work (Some 1000) mid) in *.
  assert (E2 : exec (charger_limiter_worker rc batt2 usb2) st1
               = Some (set_pending_work (Some 1000)
                         (set_charge_should_off false (stop_effect rc st1)))).
  { apply (stop_cycle_exec rc _ _ _ _ _ _ Hs2); subst st1; cbn;
      rewrite ?KB, ?KL, ?KP, ?KW; auto; lia. }
  destruct (stop_effect_call rc st1 F1) as (Hlog & _).
  exists st1. eexists. split; [exact E1|].
  split; [exact F1|]. split; [subst st1; cbn; congruence|].
  split; [exact E2|]. cbn. auto.
Qed.

Lemma pending_stop_survives_resume_witness :
  exists st1 st2,
    exec (charger_limiter_worker never_fails (supply 2 90 0) (supply 0 0 0))
         (set_charge_should_off true suppressed_state) = Some st1 /\
    charging_off st1 = false /\
    charge_should_off st1 = true /\
    exec (charger_limiter_worker never_fails (supply 1 100 1) (supply 0 0 1))
         st1 = Some st2 /\
    actuator_log st2 = actuator_log st1 ++ [false] /\
    charge_should_off st2 = false /\
    pending_work st2 = Some 1000.
Proof.
  apply (pending_stop_survives_resume never_fails
           (set_charge_should_off true suppressed_state)
           (supply 2 90 0) (supply 0 0 0) 2 90 0
           (supply 1 100 1) (supply 0 0 1) 1 100 1);
    solve [reflexivity | cbn; lia].
Defined.

(** ** No repeated stop *)

Lemma held_off_step (rc : list bool -> bool -> Z) st s e :
  held_off st s ->
  above_resume (charging_below st) e = true ->
  exists s', exec (step rc e) s = Some s' /\ held_off st s'.
Proof.
  intros (Hwq & HB & HL & Hoff & Hlog) Habove.
  destruct e as [batt_psy usb_psy| | |]; try discriminate.
  cbn [step above_resume] in *.
  destruct (snapshot batt_psy usb_psy) as [[[status cap] usbc]|] eqn:Hs.
  - apply Z.ltb_lt in Habove.
    destruct (cycle_cases rc _ _ _ _ _ s Hs Hwq) as (ms & s' & D & E).
    eexists. split; [exact E|].
    unfold held_off. cbn.
    destruct D as [Hlow|? ? ? ?|? ? ? Hpend|? ?].
    + lia.
    + rewrite (stop_effect_on rc s Hoff). cbn. auto.
    + cbn. auto.
    + auto.
  - rewrite (unavailable_worker rc _ _ Habove).
    exists (set_pending_work (Some 5000) s).
    unfold exec, reschedule_worker, queue_delayed_work, bind, gets, modify.
    rewrite Hwq. split; [reflexivity|]. unfold held_off. cbn. auto.
Qed.

Lemma held_off_run (rc : list bool -> bool -> Z) st es :
  forallb (above_resume (charging_below st)) es = true ->
  forall s, held_off st s ->
  exists s', exec (run rc es) s = Some s' /\ held_off st s'.
Proof.
  induction es as [|e es IH]; intros Hall s Hheld.
  - exists s. now split.
  - cbn [forallb] in Hall. apply andb_prop in Hall as [He Hes].
    destruct (held_off_step rc st s e Hheld He) as (s1 & E1 & H1).
    destruct (IH Hes s1 H1) as (s' & E' & H').
    exists s'. split; [|exact H'].
    now rewrite (exec_run_cons rc _ _ _ _ E1).
Qed.

(** C6: once charging_off is set, after any number of cycles none of which
    is at or under charging_below, a cycle at or above charging_limit makes
    no actuator call: the log is still the one of the state where
    charging_off was found set, and charging_off is still set. *)
Theorem no_repeated_stop :
  forall (rc : list bool -> bool -> Z) (st : kstate) (earlier : list event)
         batt_psy usb_psy status cap usbc,
    charge_limiter_wq st = true ->
    charging_below st < charging_limit st ->
    charging_off st = true ->
    forallb (above_resume (charging_below st)) earlier = true ->
    snapshot batt_psy usb_psy = Some (status, cap, usbc) ->
    charging_limit st <= cap ->
    exists st1 st2,
      exec (run rc earlier) st = Some st1 /\
      actuator_log st1 = actuator_log st /\
      exec (charger_limiter_worker rc batt_psy usb_psy) st1 = Some st2 /\
      actuator_log st2 = actuator_log st /\
      charging_off st2 = true.
Proof.
  intros rc st earlier batt_psy usb_psy status cap usbc
         Hwq Hgap Hoff Hall Hs Hhigh.
  assert (H0 : held_off st st) by (unfold held_off; auto).
  destruct (held_off_run rc st earlier Hall st H0) as (st1 & E1 & H1).
  assert (Hlast : above_resume (charging_below st) (Cycle batt_psy usb_psy)
                  = true).
  { cbn [above_resume]. rewrite Hs. apply Z.ltb_lt. lia. }
  destruct (held_off_step rc st st1 _ H1 Hlast) as (st2 & E2 & H2).
  exists st1, st2.
  destruct H1 as (_ & _ & _ & _ & L1). destruct H2 as (_ & _ & _ & O2 & L2).
  cbn [step] in E2. auto.
Qed.

Lemma no_repeated_stop_witness :
  exists st1 st2,
    exec (run never_fails
            [Cycle (supply 1 100 1) (supply 0 0 1);
             Cycle (supply 1 100 1) supply_not_ready;
             Cycle (supply 1 97 1) (supply 0 0 1);
             Cycle (supply 1 100 1) (supply 0 0 1)])
         suppressed_state = Some st1 /\
    actuator_log st1 = actuator_log suppressed_state /\
    exec (charger_limiter_worker never_fails (supply 1 100 1) (supply 0 0 1))
         st1 = Some st2 /\
    actuator_log st2 = actuator_log suppressed_state /\
    charging_off st2 = true.
Proof.
  apply (no_repeated_stop never_fails suppressed_state
           [Cycle (supply 1 100 1) (supply 0 0 1);
            Cycle (supply 1 100 1) supply_not_ready;
            Cycle (supply 1 97 1) (supply 0 0 1);
            Cycle (supply 1 100 1) (supply 0 0 1)]
           (supply 1 100 1) (supply 0 0 1) 1 100 1);
    solve [reflexivity | cbn; lia].
Defined.

(** ** The thresholds along arbitrary runs *)

Lemma keeps_ret {A : Type} (a : A) : keeps_thresholds (ret a).
Proof. intros s a' s' H. injection H as _ <-. auto. Qed.

Lemma keeps_oops {A : Type} : keeps_thresholds (@oops A).
Proof. intros s a s' H. discriminate. Qed.

Lemma keeps_gets {A : Type} (f : kstate -> A) : keeps_thresholds (gets f).
Proof. intros s a s' H. injection H as _ <-. auto. Qed.

Lemma keeps_modify (f : kstate -> kstate) :
  (forall s, charging_below (f s) = charging_below s /\
             charging_limit (f s) = charging_limit s) ->
  keeps_thresholds (modify f).
Proof. intros Hf s a s' H. injection H as _ <-. apply Hf. Qed.

Lemma keeps_bind {A B : Type} (m : M A) (k : A -> M B) :
  keeps_thresholds m -> (forall a, keeps_thresholds (k a)) ->
  keeps_thresholds (bind m k).
Proof.
  intros Hm Hk s b s' H. unfold bind in H.
  destruct (m s) as [[a s1]|] eqn:E; [|discriminate].
  destruct (Hm _ _ _ E) as [B1 L1]. destruct (Hk a _ _ _ H) as [B2 L2].
  split; congruence.
Qed.

Lemma keeps_if {A : Type} (c : bool) (m1 m2 : M A) :
  keeps_thresholds m1 -> keeps_thresholds m2 ->
  keeps_thresholds (if c then m1 else m2).
Proof. destruct c; auto. Qed.

Create HintDb keeps.
#[local] Hint Resolve keeps_ret keeps_oops keeps_gets keeps_bind keeps_if : keeps.
#[local] Hint Extern 1 (keeps_thresholds (modify _)) =>
  apply keeps_modify; intros; split; reflexivity : keeps.
#[local] Hint Extern 2 (keeps_thresholds (match ?x with _ => _ end)) =>
  destruct x : keeps.

Lemma keeps_enable_disable_charging (rc : list bool -> bool -> Z) enable :
  keeps_thresholds (enable_disable_charging rc enable).
Proof.
  unfold enable_disable_charging, power_supply_set_charging_enabled.
  auto 12 with keeps.
Qed.

Lemma keeps_reschedule_worker ms : keeps_thresholds (reschedule_worker ms).
Proof. unfold reschedule_worker, queue_delayed_work. auto 8 with keeps. Qed.

#[local] Hint Resolve keeps_enable_disable_charging keeps_reschedule_worker
  : keeps.

Lemma keeps_charger_limiter_worker (rc : list bool -> bool -> Z) batt_psy usb_psy :
  keeps_thresholds (charger_limiter_worker rc batt_psy usb_psy).
Proof.
  unfold charger_limiter_worker, charger_limiter_decide.
  auto 20 with keeps.
Qed.

Lemma keeps_store_enabled (rc : list bool -> bool -> Z) scanned count alloc_ok batt_psy :
  keeps_thresholds (store_enabled rc scanned count alloc_ok batt_psy).
Proof.
  unfold store_enabled, start_charger_limiter, stop_charger_limiter,
    cancel_delayed_work_sync, destroy_workqueue.
  auto 20 with keeps.
Qed.

Lemma step_keeps_thresholds_ok (rc : list bool -> bool -> Z) e s s' :
  thresholds_ok s -> exec (step rc e) s = Some s' -> thresholds_ok s'.
Proof.
  intros Hok E. unfold exec in E.
  destruct (step rc e s) as [[u s1]|] eqn:Es; [|discriminate].
  injection E as ->.
  destruct e as [batt_psy usb_psy|scanned count alloc_ok batt_psy
                 |scanned count|scanned count]; cbn [step] in Es.
  - destruct (keeps_charger_limiter_worker rc _ _ _ _ _ Es) as [B L].
    unfold thresholds_ok in *. rewrite B, L. exact Hok.
  - assert (K : keeps_thresholds
                  (store_enabled rc scanned count alloc_ok batt_psy ;; ret tt))
      by auto using keeps_store_enabled with keeps.
    destruct (K _ _ _ Es) as [B L].
    unfold thresholds_ok in *. rewrite B, L. exact Hok.
  - destruct (store_charging_below_ok scanned count s Hok)
      as (r & s2 & E2 & Hok2 & _).
    unfold bind in Es. rewrite E2 in Es. injection Es as _ <-. exact Hok2.
  - destruct (store_charging_limit_ok scanned count s Hok)
      as (r & s2 & E2 & Hok2 & _).
    unfold bind in Es. rewrite E2 in Es. injection Es as _ <-. exact Hok2.
Qed.

(** Whatever the governor goes through from its initial state, the resume
    threshold stays strictly under the stop threshold. *)
Lemma run_keeps_thresholds_ok (rc : list bool -> bool -> Z) es :
  forall s s',
    thresholds_ok s -> exec (run rc es) s = Some s' -> thresholds_ok s'.
Proof.
  induction es as [|e es IH]; intros s s' Hok E.
  - injection E as <-. exact Hok.
  - destruct (exec (step rc e) s) as [s1|] eqn:E1.
    + rewrite (exec_run_cons rc _ _ _ _ E1) in E.
      apply (IH s1 s'); [|exact E].
      apply (step_keeps_thresholds_ok rc e s s1 Hok E1).
    + unfold exec in E, E1. cbn [run] in E. unfold bind in E.
      destruct (step rc e s) as [[u s1]|]; discriminate.
Qed.

(** ** More on the threshold handlers *)

Lemma uint_of_small (z : Z) : 0 <= z < 2 ^ 32 -> uint_of z = z.
Proof. intros H. unfold uint_of. apply Z.mod_small. exact H. Qed.

Lemma uint_of_range (z : Z) : 0 <= uint_of z < 2 ^ 32.
Proof. unfold uint_of. apply Z.mod_pos_bound. lia. Qed.

Lemma clamped_input_min (v : Z) :
  (if uint_of v >? 100 then 100 else uint_of v) = Z.min (uint_of v) 100.
Proof.
  destruct (uint_of v >? 100) eqn:E.
  - rewrite Z.gtb_ltb in E. apply Z.ltb_lt in E. lia.
  - rewrite Z.gtb_ltb in E. apply Z.ltb_ge in E. lia.
Qed.

(** What [store_charging_below] stores, with the wrap-around discharged. *)
Lemma store_charging_below_value v count s :
  - 2 ^ 31 + 5 <= charging_limit s < 2 ^ 31 ->
  store_charging_below (Some v) count s
  = Some (count,
          set_charging_below
            (if charging_limit s <=? Z.min (uint_of v) 100
             then charging_limit s - 5 else Z.min (uint_of v) 100) s).
Proof.
  intros Hl.
  unfold store_charging_below, bind, gets, modify, ret. cbn -[Z.geb int_of].
  rewrite clamped_input_min.
  pose proof (uint_of_range v) as Hv.
  rewrite (int_of_small (Z.min (uint_of v) 100)) by lia.
  rewrite Z.geb_leb.
  destruct (charging_limit s <=? Z.min (uint_of v) 100); cbn -[int_of].
  - rewrite int_of_small by lia. reflexivity.
  - reflexivity.
Qed.

Lemma store_charging_limit_value v count s :
  - 2 ^ 31 <= charging_below s < 2 ^ 31 - 5 ->
  store_charging_limit (Some v) count s
  = Some (count,
          set_charging_limit
            (if Z.min (uint_of v) 100 <=? charging_below s
             then charging_below s + 5 else Z.min (uint_of v) 100) s).
Proof.
  intros Hb.
  unfold store_charging_limit, bind, gets, modify, ret. cbn -[Z.leb int_of].
  rewrite clamped_input_min.
  pose proof (uint_of_range v) as Hv.
  rewrite (int_of_small (Z.min (uint_of v) 100)) by lia.
  destruct (Z.min (uint_of v) 100 <=? charging_below s); cbn -[int_of].
  - rewrite int_of_small by lia. reflexivity.
  - reflexivity.
Qed.

(** Along every run of handler calls and cycles from the initial state the
    thresholds stay in these bounds: charging_below in -5..100,
    charging_limit in 0..105, and charging_below under charging_limit. *)
Theorem thresholds_bounds_along_runs :
  forall (rc : list bool -> bool -> Z) (es : list event) (st : kstate),
    exec (run rc es) initial_state = Some st ->
    -5 <= charging_below st <= 100 /\
    0 <= charging_limit st <= 105 /\
    charging_below st < charging_limit st.
Proof.
  intros rc es st E.
  exact (run_keeps_thresholds_ok rc es initial_state st
           initial_thresholds_ok E).
Qed.

Lemma thresholds_bounds_along_runs_witness :
  -5 <= charging_below suppressed_state <= 100 /\
  0 <= charging_limit suppressed_state <= 105 /\
  charging_below suppressed_state < charging_limit suppressed_state.
Proof.
  apply (thresholds_bounds_along_runs never_fails
           [WriteEnabled (Some 1) 2 true None;
            Cycle (supply 1 100 1) (supply 0 0 1);
            Cycle (supply 1 100 1) (supply 0 0 1)] suppressed_state).
  vm_compute. reflexivity.
Defined.

(** A write to one threshold changes that threshold and nothing else: not
    the other threshold, not the control flags, the schedule or the actuator
    log. *)
Theorem threshold_write_frame :
  forall (scanned : option Z) (count : Z) (s : kstate),
    (exists r b,
       store_charging_below scanned count s = Some (r, set_charging_below b s))
    /\
    (exists r l,
       store_charging_limit scanned count s = Some (r, set_charging_limit l s)).
Proof.
  intros scanned count s. split.
  - destruct scanned as [v|].
    + unfold store_charging_below, bind, gets, modify, ret.
      cbn -[Z.geb int_of].
      match goal with |- context [if ?c then _ else _] => destruct c end;
        eexists; eexists; reflexivity.
    + exists (- EINVAL), (charging_below s). destruct s; reflexivity.
  - destruct scanned as [v|].
    + unfold store_charging_limit, bind, gets, modify, ret.
      cbn -[Z.leb int_of].
      match goal with |- context [if ?c then _ else _] => destruct c end;
        eexists; eexists; reflexivity.
    + exists (- EINVAL), (charging_limit s). destruct s; reflexivity.
Qed.

(** A value from 0 to 100 that is under charging_limit is stored in
    charging_below as written, and [show_charging_below] then prints its
    decimal digits and a newline and returns their number. *)
Theorem charging_below_write_reads_back :
  forall (v count : Z) (s : kstate),
    0 <= v <= 100 ->
    v < charging_limit s ->
    charging_limit s < 2 ^ 31 ->
    exists s',
      store_charging_below (Some v) count s = Some (count, s') /\
      charging_below s' = v /\
      charging_limit s' = charging_limit s /\
      show_charging_below s'
      = (decimal_line v, Z.of_nat (String.length (decimal_line v))).
Proof.
  intros v count s Hv Hlt Hl.
  rewrite store_charging_below_value by lia.
  rewrite (uint_of_small v) by lia.
  replace (Z.min v 100) with v by lia.
  replace (charging_limit s <=? v) with false by (symmetry; apply Z.leb_gt; lia).
  eexists. split; [reflexivity|]. cbn [charging_below set_charging_below].
  repeat split.
  unfold show_charging_below, sprintf_u. cbn [charging_below set_charging_below].
  rewrite (uint_of_small v) by lia. reflexivity.
Qed.

Lemma charging_below_write_reads_back_witness :
  exists s',
    store_charging_below (Some 80) 3 initial_state = Some (3, s') /\
    charging_below s' = 80 /\
    charging_limit s' = charging_limit initial_state /\
    show_charging_below s'
    = (decimal_line 80, Z.of_nat (String.length (decimal_line 80))).
Proof.
  apply (charging_below_write_reads_back 80 3 initial_state); cbn; lia.
Defined.

(** A value from 0 to 100 that is above charging_below is stored in
    charging_limit as written, and [show_charging_limit] prints it back. *)
Theorem charging_limit_write_reads_back :
  forall (v count : Z) (s : kstate),
    0 <= v <= 100 ->
    charging_below s < v ->
    - 2 ^ 31 <= charging_below s ->
    exists s',
      store_charging_limit (Some v) count s = Some (count, s') /\
      charging_limit s' = v /\
      charging_below s' = charging_below s /\
      show_charging_limit s'
      = (decimal_line v, Z.of_nat (String.length (decimal_line v))).
Proof.
  intros v count s Hv Hlt Hb.
  rewrite store_charging_limit_value by lia.
  rewrite (uint_of_small v) by lia.
  replace (Z.min v 100) with v by lia.
  replace (v <=? charging_below s) with false by (symmetry; apply Z.leb_gt; lia).
  eexists. split; [reflexivity|]. cbn [charging_limit set_charging_limit].
  repeat split.
  unfold show_charging_limit, sprintf_u. cbn [charging_limit set_charging_limit].
  rewrite (uint_of_small v) by lia. reflexivity.
Qed.

Lemma charging_limit_write_reads_back_witness :
  exists s',
    store_charging_limit (Some 97) 3 initial_state = Some (3, s') /\
    charging_limit s' = 97 /\
    charging_below s' = charging_below initial_state /\
    show_charging_limit s'
    = (decimal_line 97, Z.of_nat (String.length (decimal_line 97))).
Proof.
  apply (charging_limit_write_reads_back 97 3 initial_state); cbn; lia.
Defined.

(** A write to charging_below that, once clamped to 100, reaches or passes
    charging_limit is not refused: the handler returns [count] and stores
    charging_limit - 5, leaving charging_limit where it is. *)
Theorem charging_below_write_at_limit :
  forall (v count : Z) (s : kstate),
    thresholds_ok s ->
    charging_limit s <= Z.min (uint_of v) 100 ->
    exists s',
      store_charging_below (Some v) count s = Some (count, s') /\
      charging_below s' = charging_limit s - 5 /\
      charging_limit s' = charging_limit s.
Proof.
  intros v count s (Hb & Hl & Hlt) Hge.
  rewrite store_charging_below_value by lia.
  replace (charging_limit s <=? Z.min (uint_of v) 100) with true
    by (symmetry; apply Z.leb_le; exact Hge).
  eexists. split; [reflexivity|]. split; reflexivity.
Qed.

Lemma charging_below_write_at_limit_witness :
  exists s',
    store_charging_below (Some 4000000000) 11 initial_state = Some (11, s') /\
    charging_below s' = charging_limit initial_state - 5 /\
    charging_limit s' = charging_limit initial_state.
Proof.
  apply (charging_below_write_at_limit 4000000000 11 initial_state).
  - exact initial_thresholds_ok.
  - vm_compute. discriminate.
Defined.

(** A write to charging_limit that, once clamped to 100, is at or under
    charging_below stores charging_below + 5, leaving charging_below where it
    is. *)
Theorem charging_limit_write_at_below :
  forall (v count : Z) (s : kstate),
    thresholds_ok s ->
    Z.min (uint_of v) 100 <= charging_below s ->
    exists s',
      store_charging_limit (Some v) count s = Some (count, s') /\
      charging_limit s' = charging_below s + 5 /\
      charging_below s' = charging_below s.
Proof.
  intros v count s (Hb & Hl & Hlt) Hle.
  rewrite store_charging_limit_value by lia.
  replace (Z.min (uint_of v) 100 <=? charging_below s) with true
    by (symmetry; apply Z.leb_le; exact Hle).
  eexists. split; [reflexivity|]. split; reflexivity.
Qed.

Lemma charging_limit_write_at_below_witness :
  exists s',
    store_charging_limit (Some 60) 3 initial_state = Some (3, s') /\
    charging_limit s' = charging_below initial_state + 5 /\
    charging_below s' = charging_below initial_state.
Proof.
  apply (charging_limit_write_at_below 60 3 initial_state).
  - exact initial_thresholds_ok.
  - vm_compute. discriminate.
Defined.

(** Any number above 100 written to a threshold acts as 100. *)
Theorem threshold_write_above_100 :
  forall (v count : Z) (s : kstate),
    100 < uint_of v ->
    store_charging_below (Some v) count s
    = store_charging_below (Some 100) count s /\
    store_charging_limit (Some v) count s
    = store_charging_limit (Some 100) count s.
Proof.
  intros v count s Hv.
  assert (E : (uint_of v >? 100) = true)
    by (rewrite Z.gtb_ltb; apply Z.ltb_lt; exact Hv).
  unfold store_charging_below, store_charging_limit.
  cbv zeta. rewrite E. split; reflexivity.
Qed.

Lemma threshold_write_above_100_witness :
  store_charging_below (Some 250) 4 initial_state
  = store_charging_below (Some 100) 4 initial_state /\
  store_charging_limit (Some 250) 4 initial_state
  = store_charging_limit (Some 100) 4 initial_state.
Proof.
  apply (threshold_write_above_100 250 4 initial_state).
  vm_compute. reflexivity.
Defined.

(** When the fix-up has taken charging_below under 0, [show_charging_below]
    prints it through [%u] as 2^32 + charging_below: ten digits and the
    newline. *)
Theorem negative_charging_below_shown_unsigned :
  forall (s : kstate),
    thresholds_ok s ->
    charging_below s < 0 ->
    show_charging_below s
    = (decimal_line (2 ^ 32 + charging_below s), 11).
Proof.
  intros s (Hb & _ & _) Hneg.
  unfold show_charging_below.
  assert (H : charging_below s = -5 \/ charging_below s = -4 \/
              charging_below s = -3 \/ charging_below s = -2 \/
              charging_below s = -1) by lia.
  destruct H as [-> | [-> | [-> | [-> | ->]]]]; vm_compute; reflexivity.
Qed.

Lemma negative_charging_below_shown_unsigned_witness :
  show_charging_below (set_charging_limit 1 (set_charging_below (-4) initial_state))
  = (decimal_line (2 ^ 32 + -4), 11).
Proof.
  apply (negative_charging_below_shown_unsigned
           (set_charging_limit 1 (set_charging_below (-4) initial_state)));
    [unfold thresholds_ok; cbn; lia | cbn; lia].
Defined.

(** ** More on the enabled handler *)

Lemma int_of_uint_of (v : Z) :
  int_of (uint_of v)
  = if uint_of v <? 2 ^ 31 then uint_of v else uint_of v - 2 ^ 32.
Proof.
  pose proof (uint_of_range v) as Hv.
  destruct (uint_of v <? 2 ^ 31) eqn:E.
  - apply Z.ltb_lt in E. apply int_of_small. lia.
  - apply Z.ltb_ge in E. unfold int_of.
    replace (uint_of v + 2 ^ 31) with (uint_of v - 2 ^ 31 + 1 * 2 ^ 32) by lia.
    rewrite Z_mod_plus_full, Z.mod_small; lia.
Qed.

Lemma int_of_uint_of_zero (v : Z) :
  (int_of (uint_of v) =? 0) = (uint_of v =? 0).
Proof.
  pose proof (uint_of_range v) as Hv. rewrite int_of_uint_of.
  destruct (uint_of v <? 2 ^ 31) eqn:E; [reflexivity|].
  apply Z.ltb_ge in E.
  destruct (uint_of v =? 0) eqn:Z0.
  - apply Z.eqb_eq in Z0. lia.
  - apply Z.eqb_neq. lia.
Qed.

Lemma uint_of_int_of_uint_of (v : Z) :
  uint_of (int_of (uint_of v)) = uint_of v.
Proof.
  pose proof (uint_of_range v) as Hv. rewrite int_of_uint_of.
  destruct (uint_of v <? 2 ^ 31) eqn:E.
  - apply uint_of_small. exact Hv.
  - unfold uint_of at 1.
    replace (uint_of v - 2 ^ 32) with (uint_of v + (-1) * 2 ^ 32) by lia.
    rewrite Z_mod_plus_full. apply Z.mod_small. exact Hv.
Qed.

(** The three ways through [store_enabled] once a number was scanned. *)
Lemma store_enabled_same (rc : list bool -> bool -> Z) v count alloc_ok batt_psy s :
  cl_is_enabled s = negb (uint_of v =? 0) ->
  store_enabled rc (Some v) count alloc_ok batt_psy s
  = Some (count, set_enabled (int_of (uint_of v)) s).
Proof.
  intros Hrun. unfold store_enabled, bind, gets, modify, ret.
  cbn [enabled cl_is_enabled set_enabled].
  rewrite int_of_uint_of_zero, Hrun.
  destruct (uint_of v =? 0); reflexivity.
Qed.

Lemma store_enabled_start (rc : list bool -> bool -> Z) v count alloc_ok batt_psy s :
  cl_is_enabled s = false ->
  uint_of v <> 0 ->
  store_enabled rc (Some v) count alloc_ok batt_psy s
  = Some (count,
          set_cl_is_enabled true
            (if alloc_ok
             then set_pending_work (Some 1000)
                    (set_charge_limiter_wq true
                       (set_enabled (int_of (uint_of v)) s))
             else set_charge_limiter_wq false
                    (set_enabled (int_of (uint_of v)) s))).
Proof.
  intros Hrun Hv. apply Z.eqb_neq in Hv.
  unfold store_enabled, bind, gets, modify, ret.
  cbn [enabled cl_is_enabled set_enabled].
  rewrite int_of_uint_of_zero, Hrun, Hv. cbn [negb].
  unfold start_charger_limiter, reschedule_worker, queue_delayed_work,
    bind, gets, modify, ret.
  destruct alloc_ok; reflexivity.
Qed.

Lemma store_enabled_stop (rc : list bool -> bool -> Z) v count alloc_ok batt_psy s :
  cl_is_enabled s = true ->
  charge_limiter_wq s = true ->
  uint_of v = 0 ->
  store_enabled rc (Some v) count alloc_ok batt_psy s
  = Some (count,
          set_cl_is_enabled false
            (match batt_psy with
             | Some _ => resume_effect rc
                           (set_pending_work None (set_enabled 0 s))
             | None => set_pending_work None (set_enabled 0 s)
             end)).
Proof.
  intros Hrun Hwq Hv.
  unfold store_enabled. rewrite Hv. change (int_of 0) with 0.
  unfold bind at 1. unfold modify at 1.
  unfold bind at 1. unfold gets at 1. cbn [enabled set_enabled].
  unfold bind at 1. unfold gets at 1. cbn [cl_is_enabled set_enabled].
  rewrite Hrun. change (negb (0 =? 0)) with false. cbv iota.
  unfold bind at 1. unfold bind at 1.
  destruct batt_psy as [batt|].
  - rewrite stop_charger_limiter_exec by exact Hwq. reflexivity.
  - unfold stop_charger_limiter, cancel_delayed_work_sync, destroy_workqueue,
      bind, gets, modify, ret.
    cbn [charge_limiter_wq set_pending_work set_enabled].
    rewrite Hwq. reflexivity.
Qed.

Lemma step_write_enabled (rc : list bool -> bool -> Z) scanned count alloc_ok batt_psy s r s' :
  store_enabled rc scanned count alloc_ok batt_psy s = Some (r, s') ->
  exec (step rc (WriteEnabled scanned count alloc_ok batt_psy)) s = Some s'.
Proof.
  intros E. unfold exec. cbn [step]. unfold bind. rewrite E. reflexivity.
Qed.

(** Writing a non-zero number to enabled while the loop runs, or 0 while it
    is stopped, stores the number and does nothing else: no second start, no
    rescheduling, no actuator call. *)
Theorem redundant_enabled_write :
  forall (rc : list bool -> bool -> Z) (v count : Z) (alloc_ok : bool)
         (batt_psy : option power_supply) (s : kstate),
    cl_is_enabled s = negb (uint_of v =? 0) ->
    store_enabled rc (Some v) count alloc_ok batt_psy s
    = Some (count, set_enabled (int_of (uint_of v)) s).
Proof.
  intros. now apply store_enabled_same.
Qed.

Lemma redundant_enabled_write_witness :
  store_enabled never_fails (Some 7) 2 true None suppressed_state
  = Some (2, set_enabled (int_of (uint_of 7)) suppressed_state).
Proof.
  apply (redundant_enabled_write never_fails 7 2 true None suppressed_state).
  reflexivity.
Defined.

(** Writing a non-zero number to enabled while the loop is stopped returns
    [count] whether or not the workqueue could be allocated and marks the
    loop as running either way; only with a workqueue is the first cycle
    queued, 1000 ms ahead.  charging_off, charge_should_off and the
    thresholds are taken over as they are, and no actuator call is made. *)
Theorem enable_starts_loop :
  forall (rc : list bool -> bool -> Z) (v count : Z) (alloc_ok : bool)
         (batt_psy : option power_supply) (s : kstate),
    cl_is_enabled s = false ->
    uint_of v <> 0 ->
    exists s',
      store_enabled rc (Some v) count alloc_ok batt_psy s = Some (count, s') /\
      cl_is_enabled s' = true /\
      charge_limiter_wq s' = alloc_ok /\
      pending_work s' = (if alloc_ok then Some 1000 else pending_work s) /\
      charging_off s' = charging_off s /\
      charge_should_off s' = charge_should_off s /\
      charging_below s' = charging_below s /\
      charging_limit s' = charging_limit s /\
      actuator_log s' = actuator_log s.
Proof.
  intros rc v count alloc_ok batt_psy s Hrun Hv.
  rewrite (store_enabled_start rc v count alloc_ok batt_psy s Hrun Hv).
  eexists. split; [reflexivity|].
  destruct alloc_ok; repeat split.
Qed.

Lemma enable_starts_loop_witness :
  exists s',
    store_enabled never_fails (Some 1) 2 false None initial_state
    = Some (2, s') /\
    cl_is_enabled s' = true /\
    charge_limiter_wq s' = false /\
    pending_work s' = pending_work initial_state /\
    charging_off s' = charging_off initial_state /\
    charge_should_off s' = charge_should_off initial_state /\
    charging_below s' = charging_below initial_state /\
    charging_limit s' = charging_limit initial_state /\
    actuator_log s' = actuator_log initial_state.
Proof.
  apply (enable_starts_loop never_fails 1 2 false None initial_state);
    [reflexivity | vm_compute; discriminate].
Defined.

(** After a start whose workqueue allocation failed, a second non-zero
    write to enabled does not try again, even if an allocation would now
    succeed: the loop stays marked as running with no workqueue and no cycle
    queued. *)
Theorem failed_start_not_retried :
  forall (rc : list bool -> bool -> Z) (v1 count1 v2 count2 : Z)
         (batt1 batt2 : option power_supply) (s : kstate),
    cl_is_enabled s = false ->
    uint_of v1 <> 0 ->
    uint_of v2 <> 0 ->
    exists s',
      exec (run rc [WriteEnabled (Some v1) count1 false batt1;
                    WriteEnabled (Some v2) count2 true batt2]) s = Some s' /\
      cl_is_enabled s' = true /\
      charge_limiter_wq s' = false /\
      pending_work s' = pending_work s.
Proof.
  intros rc v1 count1 v2 count2 batt1 batt2 s Hrun Hv1 Hv2.
  pose proof (store_enabled_start rc v1 count1 false batt1 s Hrun Hv1) as E1.
  cbv iota in E1.
  set (s1 := set_cl_is_enabled true
               (set_charge_limiter_wq false
                  (set_enabled (int_of (uint_of v1)) s))) in *.
  assert (E2 : store_enabled rc (Some v2) count2 true batt2 s1
               = Some (count2, set_enabled (int_of (uint_of v2)) s1)).
  { apply store_enabled_same. apply Z.eqb_neq in Hv2. rewrite Hv2. reflexivity. }
  eexists. split.
  - rewrite (exec_run_cons rc _ _ _ _ (step_write_enabled rc _ _ _ _ _ _ _ E1)).
    rewrite (exec_run_cons rc _ _ _ _ (step_write_enabled rc _ _ _ _ _ _ _ E2)).
    reflexivity.
  - repeat split.
Qed.

Lemma failed_start_not_retried_witness :
  exists s',
    exec (run never_fails [WriteEnabled (Some 1) 2 false None;
                           WriteEnabled (Some 1) 2 true None]) initial_state
    = Some s' /\
    cl_is_enabled s' = true /\
    charge_limiter_wq s' = false /\
    pending_work s' = pending_work initial_state.
Proof.
  apply (failed_start_not_retried never_fails 1 2 1 2 None None initial_state);
    [reflexivity | vm_compute; discriminate | vm_compute; discriminate].
Defined.

(** Turning the loop off when the battery supply is not found cancels the
    pending cycle but makes no actuator call: charging_off stays as it was,
    set included. *)
Theorem disable_without_battery_supply :
  forall (rc : list bool -> bool -> Z) (v count : Z) (alloc_ok : bool)
         (s : kstate),
    cl_is_enabled s = true ->
    charge_limiter_wq s = true ->
    uint_of v = 0 ->
    exists s',
      store_enabled rc (Some v) count alloc_ok None s = Some (count, s') /\
      actuator_log s' = actuator_log s /\
      charging_off s' = charging_off s /\
      cl_is_enabled s' = false /\
      pending_work s' = None.
Proof.
  intros rc v count alloc_ok s Hrun Hwq Hv.
  rewrite (store_enabled_stop rc v count alloc_ok None s Hrun Hwq Hv).
  eexists. split; [reflexivity|]. repeat split.
Qed.

Lemma disable_without_battery_supply_witness :
  exists s',
    store_enabled never_fails (Some 0) 2 false None suppressed_state
    = Some (2, s') /\
    actuator_log s' = actuator_log suppressed_state /\
    charging_off s' = charging_off suppressed_state /\
    cl_is_enabled s' = false /\
    pending_work s' = None.
Proof.
  apply (disable_without_battery_supply never_fails 0 2 false suppressed_state);
    reflexivity.
Defined.

(** Stopping and starting the loop does not reset the debounce: with the
    pending stop armed and charging on, a write of 0 and a non-zero write to
    enabled followed by one cycle at or above charging_limit (charging
    reported or USB present) calls the actuator with [false] in that first
    cycle. *)
Theorem restart_keeps_pending_stop :
  forall (rc : list bool -> bool -> Z) (s : kstate) (v count1 count2 : Z)
         (alloc1 : bool) (batt_off batt_on : option power_supply)
         batt_psy usb_psy status cap usbc,
    cl_is_enabled s = true ->
    charge_limiter_wq s = true ->
    charging_below s < charging_limit s ->
    charging_off s = false ->
    charge_should_off s = true ->
    uint_of v <> 0 ->
    snapshot batt_psy usb_psy = Some (status, cap, usbc) ->
    charging_limit s <= cap ->
    charging_or_usb status usbc = true ->
    exists s',
      exec (run rc [WriteEnabled (Some 0) count1 alloc1 batt_off;
                    WriteEnabled (Some v) count2 true batt_on;
                    Cycle batt_psy usb_psy]) s = Some s' /\
      actuator_log s' = actuator_log s ++ [false] /\
      charge_should_off s' = false.
Proof.
  intros rc s v count1 count2 alloc1 batt_off batt_on
         batt_psy usb_psy status cap usbc
         Hrun Hwq Hgap Hoff Hpend Hv Hs Hhigh Hu.
  pose proof (store_enabled_stop rc 0 count1 alloc1 batt_off s Hrun Hwq
                eq_refl) as E1.
  set (base := set_pending_work None (set_enabled 0 s)) in *.
  assert (Hbase : match batt_off with
                  | Some _ => resume_effect rc base
                  | None => base
                  end = base).
  { destruct batt_off; [|reflexivity]. apply resume_effect_off. exact Hoff. }
  rewrite Hbase in E1.
  set (s1 := set_cl_is_enabled false base) in *.
  pose proof (store_enabled_start rc v count2 true batt_on s1 eq_refl Hv) as E2.
  cbv iota in E2.
  set (s2 := set_cl_is_enabled true
               (set_pending_work (Some 1000)
                  (set_charge_limiter_wq true
                     (set_enabled (int_of (uint_of v)) s1)))) in *.
  assert (E3 : exec (charger_limiter_worker rc batt_psy usb_psy) s2
               = Some (set_pending_work (Some 1000)
                         (set_charge_should_off false (stop_effect rc s2)))).
  { apply (stop_cycle_exec rc _ _ _ _ _ _ Hs); subst s2 s1 base; cbn;
      auto; lia. }
  eexists. split.
  - rewrite (exec_run_cons rc _ _ _ _ (step_write_enabled rc _ _ _ _ _ _ _ E1)).
    rewrite (exec_run_cons rc _ _ _ _ (step_write_enabled rc _ _ _ _ _ _ _ E2)).
    rewrite (exec_run_cons rc (Cycle batt_psy usb_psy) [] s2 _ E3).
    reflexivity.
  - destruct (stop_effect_call rc s2 Hoff) as (Hlog & _).
    cbn [actuator_log charge_should_off set_pending_work set_charge_should_off].
    split; [exact Hlog | reflexivity].
Qed.

Lemma restart_keeps_pending_stop_witness :
  exists s',
    exec (run never_fails
            [WriteEnabled (Some 0) 2 false (supply 1 100 1);
             WriteEnabled (Some 1) 2 true None;
             Cycle (supply 1 100 1) (supply 0 0 1)])
         (set_charge_should_off true started_state) = Some s' /\
    actuator_log s'
    = actuator_log (set_charge_should_off true started_state) ++ [false] /\
    charge_should_off s' = false.
Proof.
  apply (restart_keeps_pending_stop never_fails
           (set_charge_should_off true started_state) 1 2 2 false
           (supply 1 100 1) None (supply 1 100 1) (supply 0 0 1) 1 100 1);
    solve [reflexivity | cbn; lia | vm_compute; discriminate].
Defined.

(** [show_enabled] prints the number that was written, reduced to 32 bits,
    not a 0/1 flag: whenever [store_enabled] returns for a scanned number,
    the text shown afterwards is that number's decimal line. *)
Theorem enabled_shown_as_written :
  forall (rc : list bool -> bool -> Z) (v count : Z) (alloc_ok : bool)
         (batt_psy : option power_supply) (s s' : kstate) (r : Z),
    store_enabled rc (Some v) count alloc_ok batt_psy s = Some (r, s') ->
    show_enabled s'
    = (decimal_line (uint_of v),
       Z.of_nat (String.length (decimal_line (uint_of v)))).
Proof.
  intros rc v count alloc_ok batt_psy s s' r E.
  assert (He : enabled s' = int_of (uint_of v)).
  { destruct (uint_of v =? 0) eqn:Z0; destruct (cl_is_enabled s) eqn:Hrun.
    - apply Z.eqb_eq in Z0.
      destruct (charge_limiter_wq s) eqn:Hwq.
      + rewrite (store_enabled_stop rc v count alloc_ok batt_psy s Hrun Hwq Z0)
          in E.
        injection E as _ <-. rewrite Z0. change (int_of 0) with 0.
        destruct batt_psy; [|reflexivity].
        cbn [enabled set_cl_is_enabled]. unfold resume_effect.
        cbn -[Z.eqb].
        destruct (charging_off s); [|reflexivity].
        destruct (rc (actuator_log s) true =? 0); reflexivity.
      + exfalso. revert E.
        unfold store_enabled. rewrite Z0. change (int_of 0) with 0.
        unfold bind at 1. unfold modify at 1.
        unfold bind at 1. unfold gets at 1. cbn [enabled set_enabled].
        unfold bind at 1. unfold gets at 1. cbn [cl_is_enabled set_enabled].
        rewrite Hrun. change (negb (0 =? 0)) with false. cbv iota.
        unfold bind at 1. unfold bind at 1.
        unfold stop_charger_limiter, cancel_delayed_work_sync,
          destroy_workqueue, bind, gets, modify, oops.
        cbn [charge_limiter_wq set_pending_work set_enabled].
        rewrite Hwq. discriminate.
    - rewrite (store_enabled_same rc v count alloc_ok batt_psy s) in E
        by (rewrite Z0; exact Hrun).
      injection E as _ <-. reflexivity.
    - rewrite (store_enabled_same rc v count alloc_ok batt_psy s) in E
        by (rewrite Z0; exact Hrun).
      injection E as _ <-. reflexivity.
    - apply Z.eqb_neq in Z0.
      rewrite (store_enabled_start rc v count alloc_ok batt_psy s Hrun Z0) in E.
      injection E as _ <-. destruct alloc_ok; reflexivity. }
  unfold show_enabled, sprintf_u. rewrite He, uint_of_int_of_uint_of.
  reflexivity.
Qed.

Lemma enabled_shown_as_written_witness :
  show_enabled (set_enabled (int_of (uint_of 7)) suppressed_state)
  = (decimal_line (uint_of 7),
     Z.of_nat (String.length (decimal_line (uint_of 7)))).
Proof.
  apply (enabled_shown_as_written never_fails 7 2 true None suppressed_state
           (set_enabled (int_of (uint_of 7)) suppressed_state) 2).
  reflexivity.
Defined.

(** ** More on the worker *)

(** A cycle that returns either took the early exit or went through the
    decision. *)
Lemma worker_outcome (rc : list bool -> bool -> Z) batt_psy usb_psy st st' :
  exec (charger_limiter_worker rc batt_psy usb_psy) st = Some st' ->
  (snapshot batt_psy usb_psy = None /\
   unavailable batt_psy usb_psy = true /\
   st' = set_pending_work (Some 5000) st) \/
  (exists status cap usbc ms s1,
     snapshot batt_psy usb_psy = Some (status, cap, usbc) /\
     decision rc status cap usbc st ms s1 /\
     st' = set_pending_work (Some ms) s1).
Proof.
  intros E.
  destruct (snapshot batt_psy usb_psy) as [[[status cap] usbc]|] eqn:Hs.
  - right. rewrite (snapshot_worker rc _ _ _ _ _ Hs) in E.
    destruct (decide_cases rc status cap usbc st) as (ms & s1 & Ed & D).
    unfold exec, bind in E. rewrite Ed in E.
    unfold reschedule_worker, queue_delayed_work, bind, gets, modify in E.
    destruct (charge_limiter_wq s1); [|discriminate].
    injection E as <-. exists status, cap, usbc, ms, s1. auto.
  - left. split; [reflexivity|].
    destruct (unavailable batt_psy usb_psy) eqn:Hun.
    + rewrite (unavailable_worker rc _ _ Hun) in E.
      unfold exec, reschedule_worker, queue_delayed_work, bind, gets, modify in E.
      destruct (charge_limiter_wq st); [|discriminate].
      injection E as <-. auto.
    + exfalso. unfold snapshot, unavailable, charger_limiter_worker, exec in *.
      destruct batt_psy as [[[bg|]]|]; try discriminate;
        destruct usb_psy as [[[ug|]]|]; discriminate.
Qed.

(** With the workqueue allocated, a cycle returns unless it dereferences a
    NULL supply: it faults exactly when the battery supply is missing, or
    the battery supply has its callback and the USB supply is missing.  A
    missing USB supply goes unnoticed when the battery supply has no
    callback. *)
Theorem worker_faults_iff :
  forall (rc : list bool -> bool -> Z) (batt_psy usb_psy : option power_supply)
         (st : kstate),
    charge_limiter_wq st = true ->
    (exec (charger_limiter_worker rc batt_psy usb_psy) st = None <->
     batt_psy = None \/
     ((exists batt_get, batt_psy = Some (mk_power_supply (Some batt_get))) /\
      usb_psy = None)).
Proof.
  intros rc batt_psy usb_psy st Hwq. split.
  - intros E.
    destruct batt_psy as [[[bg|]]|]; [| |now left].
    + destruct usb_psy as [[[ug|]]|].
      * exfalso.
        destruct (cycle_cases rc (Some (mk_power_supply (Some bg)))
                    (Some (mk_power_supply (Some ug))) _ _ _ st eq_refl Hwq)
          as (ms & s1 & _ & E'). congruence.
      * exfalso. revert E.
        rewrite (unavailable_worker rc
                   (Some (mk_power_supply (Some bg)))
                   (Some (mk_power_supply None)) eq_refl).
        unfold exec, reschedule_worker, queue_delayed_work, bind, gets, modify.
        rewrite Hwq. discriminate.
      * right. split; [exists bg; reflexivity | reflexivity].
    + exfalso. revert E.
      rewrite (unavailable_worker rc (Some (mk_power_supply None)) usb_psy
                 eq_refl).
      unfold exec, reschedule_worker, queue_delayed_work, bind, gets, modify.
      rewrite Hwq. discriminate.
  - intros [-> | ((bg & ->) & ->)]; reflexivity.
Qed.

Lemma worker_faults_iff_witness :
  exec (charger_limiter_worker never_fails supply_not_ready None) started_state
  = None <->
  supply_not_ready = None \/
  ((exists batt_get,
      supply_not_ready = Some (mk_power_supply (Some batt_get))) /\
   @None power_supply = None).
Proof.
  apply (worker_faults_iff never_fails supply_not_ready None started_state).
  reflexivity.
Defined.

(** The actuator calls of one cycle: none; or one call with [false], which
    needs charging on, the pending stop already armed and a sample at or
    above charging_limit with charging reported or USB present; or one or
    two calls with [true], which need charging off and a sample at or under
    charging_below, the second call coming only after the first failed. *)
Theorem cycle_actuator_calls :
  forall (rc : list bool -> bool -> Z) (batt_psy usb_psy : option power_supply)
         (st st' : kstate),
    exec (charger_limiter_worker rc batt_psy usb_psy) st = Some st' ->
    actuator_log st' = actuator_log st \/
    (actuator_log st' = actuator_log st ++ [false] /\
     charging_off st = false /\
     charge_should_off st = true /\
     exists status cap usbc,
       snapshot batt_psy usb_psy = Some (status, cap, usbc) /\
       charging_below st < cap /\
       charging_limit st <= cap /\
       charging_or_usb status usbc = true) \/
    ((actuator_log st' = actuator_log st ++ [true] \/
      actuator_log st' = actuator_log st ++ [true; true] /\
      rc (actuator_log st) true <> 0) /\
     charging_off st = true /\
     exists status cap usbc,
       snapshot batt_psy usb_psy = Some (status, cap, usbc) /\
       cap <= charging_below st).
Proof.
  intros rc batt_psy usb_psy st st' E.
  destruct (worker_outcome rc _ _ _ _ E)
    as [(Hs & Hun & ->) | (status & cap & usbc & ms & s1 & Hs & D & ->)].
  { left. reflexivity. }
  cbn [actuator_log set_pending_work].
  destruct D as [Hlow|Hlow Hhigh Hu Hpend|? ? ? ?|? ?].
  - destruct (charging_off st) eqn:Hoff.
    + right. right. split; [|split; [reflexivity|eauto]].
      unfold resume_effect. rewrite Hoff.
      destruct (rc (actuator_log st) true =? 0) eqn:R1.
      * left. cbn. destruct (charging_or_usb status usbc); reflexivity.
      * destruct (charging_or_usb status usbc); [|left; reflexivity].
        right. split; [|apply Z.eqb_neq; exact R1].
        cbn -[Z.eqb]. rewrite Hoff.
        destruct (rc (actuator_log st ++ [true]) true =? 0); cbn;
          rewrite <- app_assoc; reflexivity.
    + left. rewrite !(resume_effect_off rc st Hoff).
      destruct (charging_or_usb status usbc); reflexivity.
  - cbn [actuator_log set_charge_should_off].
    destruct (charging_off st) eqn:Hoff.
    + left. rewrite (stop_effect_on rc st Hoff). reflexivity.
    + right. left. destruct (stop_effect_call rc st Hoff) as (Hlog & _).
      split; [exact Hlog|]. split; [reflexivity|]. split; [exact Hpend|].
      eauto 8.
  - left. reflexivity.
  - left. reflexivity.
Qed.

Lemma cycle_actuator_calls_witness :
  actuator_log
    (set_pending_work (Some 1000)
       (set_charging_off false
          (log_actuator_call true (log_actuator_call true suppressed_state))))
  = actuator_log suppressed_state \/
  (actuator_log
     (set_pending_work (Some 1000)
        (set_charging_off false
           (log_actuator_call true (log_actuator_call true suppressed_state))))
   = actuator_log suppressed_state ++ [false] /\
   charging_off suppressed_state = false /\
   charge_should_off suppressed_state = true /\
   exists status cap usbc,
     snapshot (supply 1 50 0) (supply 0 0 0) = Some (status, cap, usbc) /\
     charging_below suppressed_state < cap /\
     charging_limit suppressed_state <= cap /\
     charging_or_usb status usbc = true) \/
  ((actuator_log
      (set_pending_work (Some 1000)
         (set_charging_off false
            (log_actuator_call true (log_actuator_call true suppressed_state))))
    = actuator_log suppressed_state ++ [true] \/
    actuator_log
      (set_pending_work (Some 1000)
         (set_charging_off false
            (log_actuator_call true (log_actuator_call true suppressed_state))))
    = actuator_log suppressed_state ++ [true; true] /\
    fails_second_only (actuator_log suppressed_state) true <> 0) /\
   charging_off suppressed_state = true /\
   exists status cap usbc,
     snapshot (supply 1 50 0) (supply 0 0 0) = Some (status, cap, usbc) /\
     cap <= charging_below suppressed_state).
Proof.
  apply (cycle_actuator_calls fails_second_only
           (supply 1 50 0) (supply 0 0 0) suppressed_state).
  vm_compute. reflexivity.
Defined.

(** The delay a cycle asks for is 5000 ms without a usable sample, 10000 ms
    when the cycle arms the pending stop (capacity above charging_below and
    at or above charging_limit, charging reported or USB present,
    charge_should_off clear), and 1000 ms in every other case, actuator
    failures included. *)
Theorem cycle_delay :
  forall (rc : list bool -> bool -> Z) (batt_psy usb_psy : option power_supply)
         (st st' : kstate),
    exec (charger_limiter_worker rc batt_psy usb_psy) st = Some st' ->
    pending_work st' = Some (expected_delay batt_psy usb_psy st).
Proof.
  intros rc batt_psy usb_psy st st' E.
  destruct (worker_outcome rc _ _ _ _ E)
    as [(Hs & Hun & ->) | (status & cap & usbc & ms & s1 & Hs & D & ->)];
    unfold expected_delay; rewrite Hs; cbn [pending_work set_pending_work].
  { reflexivity. }
  f_equal.
  destruct D as [Hlow|Hlow Hhigh Hu Hpend|Hlow Hhigh Hu Hpend|Hlow Hidle].
  - replace (charging_below st <? cap) with false
      by (symmetry; apply Z.ltb_ge; exact Hlow). reflexivity.
  - rewrite Hpend, andb_false_r. reflexivity.
  - rewrite Hpend, Hu.
    replace (charging_below st <? cap) with true
      by (symmetry; apply Z.ltb_lt; exact Hlow).
    replace (charging_limit st <=? cap) with true
      by (symmetry; apply Z.leb_le; exact Hhigh). reflexivity.
  - destruct Hidle as [Hu|Hlt].
    + rewrite Hu, andb_false_r. reflexivity.
    + replace (charging_limit st <=? cap) with false
        by (symmetry; apply Z.leb_gt; exact Hlt).
      rewrite andb_false_r. reflexivity.
Qed.

Lemma cycle_delay_witness :
  pending_work
    (set_pending_work (Some 10000) (set_charge_should_off true started_state))
  = Some (expected_delay (supply 1 100 1) (supply 0 0 1) started_state).
Proof.
  apply (cycle_delay never_fails (supply 1 100 1) (supply 0 0 1) started_state).
  vm_compute. reflexivity.
Defined.

(** ** The actuator log along runs *)

Lemma preserves_ret {A : Type} (P : kstate -> Prop) (a : A) :
  preserves P (ret a).
Proof. intros s a' s' HP H. injection H as _ <-. exact HP. Qed.

Lemma preserves_oops {A : Type} (P : kstate -> Prop) : preserves P (@oops A).
Proof. intros s a s' HP H. discriminate. Qed.

Lemma preserves_gets {A : Type} (P : kstate -> Prop) (f : kstate -> A) :
  preserves P (gets f).
Proof. intros s a s' HP H. injection H as _ <-. exact HP. Qed.

Lemma preserves_modify (P : kstate -> Prop) (f : kstate -> kstate) :
  (forall s, P s -> P (f s)) -> preserves P (modify f).
Proof. intros Hf s a s' HP H. injection H as _ <-. apply Hf, HP. Qed.

Lemma preserves_bind {A B : Type} (P : kstate -> Prop) (m : M A) (k : A -> M B) :
  preserves P m -> (forall a, preserves P (k a)) -> preserves P (bind m k).
Proof.
  intros Hm Hk s b s' HP H. unfold bind in H.
  destruct (m s) as [[a s1]|] eqn:E; [|discriminate].
  exact (Hk a s1 b s' (Hm s a s1 HP E) H).
Qed.

Lemma preserves_if {A : Type} (P : kstate -> Prop) (c : bool) (m1 m2 : M A) :
  preserves P m1 -> preserves P m2 -> preserves P (if c then m1 else m2).
Proof. destruct c; auto. Qed.

Create HintDb preserves.
#[local] Hint Resolve preserves_ret preserves_oops preserves_gets
  preserves_bind preserves_if : preserves.
#[local] Hint Extern 1 (preserves _ (modify _)) =>
  apply preserves_modify; let s := fresh in let H := fresh in
  intros s H; exact H : preserves.
#[local] Hint Extern 2 (preserves _ (match ?x with _ => _ end)) =>
  destruct x : preserves.

Lemma replay_app (rc : list bool -> bool -> Z) calls more :
  forall history off,
    replay rc history off (calls ++ more)
    = match replay rc history off calls with
      | Some off' => replay rc (history ++ calls) off' more
      | None => None
      end.
Proof.
  induction calls as [|enable calls IH]; intros history off; cbn [replay app].
  - now rewrite app_nil_r.
  - destruct (Bool.eqb enable off); [|reflexivity].
    rewrite IH, <- app_assoc. reflexivity.
Qed.

Lemma log_consistent_resume (rc : list bool -> bool -> Z) s :
  log_consistent rc s -> log_consistent rc (resume_effect rc s).
Proof.
  unfold log_consistent, resume_effect. intros H.
  destruct (charging_off s) eqn:Hoff; [|now rewrite Hoff].
  destruct (rc (actuator_log s) true =? 0) eqn:R;
    cbn [actuator_log charging_off log_actuator_call set_charging_off];
    rewrite replay_app, H; cbn [replay app Bool.eqb]; rewrite R; cbn;
    congruence.
Qed.

Lemma log_consistent_stop (rc : list bool -> bool -> Z) s :
  log_consistent rc s -> log_consistent rc (stop_effect rc s).
Proof.
  unfold log_consistent, stop_effect. intros H.
  destruct (charging_off s) eqn:Hoff; [now rewrite Hoff|].
  destruct (rc (actuator_log s) false =? 0) eqn:R;
    cbn [actuator_log charging_off log_actuator_call set_charging_off];
    rewrite replay_app, H; cbn [replay app Bool.eqb]; rewrite R; cbn;
    congruence.
Qed.

Lemma preserves_log_consistent_edc (rc : list bool -> bool -> Z) enable :
  preserves (log_consistent rc) (enable_disable_charging rc enable).
Proof.
  intros s a s' HP E. destruct enable.
  - rewrite enable_disable_charging_true in E. injection E as _ <-.
    now apply log_consistent_resume.
  - rewrite enable_disable_charging_false in E. injection E as _ <-.
    now apply log_consistent_stop.
Qed.

#[local] Hint Resolve preserves_log_consistent_edc : preserves.

Lemma preserves_log_consistent_step (rc : list bool -> bool -> Z) e :
  preserves (log_consistent rc) (step rc e).
Proof.
  destruct e as [batt_psy usb_psy|scanned count alloc_ok batt_psy
                 |scanned count|scanned count]; cbn [step].
  - unfold charger_limiter_worker, charger_limiter_decide, reschedule_worker,
      queue_delayed_work. auto 20 with preserves.
  - unfold store_enabled, start_charger_limiter, stop_charger_limiter,
      cancel_delayed_work_sync, destroy_workqueue, reschedule_worker,
      queue_delayed_work. auto 20 with preserves.
  - unfold store_charging_below. auto 20 with preserves.
  - unfold store_charging_limit. auto 20 with preserves.
Qed.

Lemma preserves_log_consistent_run (rc : list bool -> bool -> Z) es :
  preserves (log_consistent rc) (run rc es).
Proof.
  induction es as [|e es IH]; cbn [run].
  - apply preserves_ret.
  - apply preserves_bind; [apply preserves_log_consistent_step|].
    intros _. exact IH.
Qed.

Lemma exec_some {A : Type} (m : M A) s s' :
  exec m s = Some s' -> exists a, m s = Some (a, s').
Proof.
  unfold exec. destruct (m s) as [[a s1]|]; [|discriminate].
  intros H; injection H as ->. now exists a.
Qed.

(** Along every run from the initial state the actuator is never called with
    the value the driver already believes charging to have, and charging_off
    is the outcome of the calls that returned 0: replaying the log against
    the actuator's answers, each call asks for the opposite of the flag at
    that point, and the replay ends in the current charging_off. *)
Theorem actuator_log_consistent :
  forall (rc : list bool -> bool -> Z) (es : list event) (st : kstate),
    exec (run rc es) initial_state = Some st ->
    replay rc [] false (actuator_log st) = Some (charging_off st).
Proof.
  intros rc es st E. destruct (exec_some _ _ _ E) as (a & E').
  apply (preserves_log_consistent_run rc es initial_state a st); [|exact E'].
  reflexivity.
Qed.

Lemma actuator_log_consistent_witness :
  replay fails_second_only [] false (actuator_log suppressed_state)
  = Some (charging_off suppressed_state).
Proof.
  apply (actuator_log_consistent fails_second_only
           [WriteEnabled (Some 1) 2 true None;
            Cycle (supply 1 100 1) (supply 0 0 1);
            Cycle (supply 1 100 1) (supply 0 0 1)] suppressed_state).
  vm_compute. reflexivity.
Defined.

Lemma replay_alternates (rc : list bool -> bool -> Z) calls :
  (forall history enable, rc history enable = 0) ->
  forall history off off',
    replay rc history off calls = Some off' ->
    alternates off calls = true /\
    off' = xorb off (Nat.odd (length calls)).
Proof.
  intros Hok. induction calls as [|enable calls IH]; intros history off off' H.
  - cbn in *. injection H as <-. now destruct off.
  - cbn [replay] in H. destruct (Bool.eqb enable off) eqn:Heq; [|discriminate].
    rewrite Hok in H. cbn [Z.eqb] in H.
    apply Bool.eqb_prop in Heq. subst enable.
    destruct (IH _ _ _ H) as (Halt & ->).
    cbn [alternates length]. rewrite Bool.eqb_reflx, Halt.
    split; [reflexivity|].
    rewrite Nat.odd_succ, <- Nat.negb_odd. now destruct off, (Nat.odd (length calls)).
Qed.

(** With an actuator that never fails, the calls logged along any run from
    the initial state take turns, starting with a stop ([false]), and
    charging_off is set exactly when their number is odd. *)
Theorem working_actuator_calls_alternate :
  forall (rc : list bool -> bool -> Z) (es : list event) (st : kstate),
    (forall history enable, rc history enable = 0) ->
    exec (run rc es) initial_state = Some st ->
    alternates false (actuator_log st) = true /\
    charging_off st = Nat.odd (length (actuator_log st)).
Proof.
  intros rc es st Hok E. destruct (exec_some _ _ _ E) as (a & E').
  assert (H : log_consistent rc st).
  { apply (preserves_log_consistent_run rc es initial_state a st); [|exact E'].
    reflexivity. }
  destruct (replay_alternates rc _ Hok _ _ _ H) as (Halt & Hoff).
  split; [exact Halt | exact Hoff].
Qed.

Lemma working_actuator_calls_alternate_witness :
  alternates false (actuator_log suppressed_state) = true /\
  charging_off suppressed_state = Nat.odd (length (actuator_log suppressed_state)).
Proof.
  apply (working_actuator_calls_alternate never_fails
           [WriteEnabled (Some 1) 2 true None;
            Cycle (supply 1 100 1) (supply 0 0 1);
            Cycle (supply 1 100 1) (supply 0 0 1)] suppressed_state).
  - intros history enable. reflexivity.
  - vm_compute. reflexivity.
Defined.

(** ** How long a pending stop lasts *)






(** A stop whose actuator call fails is not retried in the next cycle: the
    failing cycle clears the pending stop all the same, so the next cycle at
    the limit only arms it again and asks for 10000 ms, and the call with
    [false] is repeated in the cycle after that. *)
Theorem failed_stop_needs_fresh_debounce :
  forall (rc : list bool -> bool -> Z) (st : kstate)
         batt1 usb1 status1 cap1 usbc1 batt2 usb2 status2 cap2 usbc2
         batt3 usb3 status3 cap3 usbc3,
    charge_limiter_wq st = true ->
    charging_below st < charging_limit st ->
    charging_off st = false ->
    charge_should_off st = true ->
    rc (actuator_log st) false <> 0 ->
    snapshot batt1 usb1 = Some (status1, cap1, usbc1) ->
    charging_limit st <= cap1 -> charging_or_usb status1 usbc1 = true ->
    snapshot batt2 usb2 = Some (status2, cap2, usbc2) ->
    charging_limit st <= cap2 -> charging_or_usb status2 usbc2 = true ->
    snapshot batt3 usb3 = Some (status3, cap3, usbc3) ->
    charging_limit st <= cap3 -> charging_or_usb status3 usbc3 = true ->
    exists st1 st2 st3,
      exec (charger_limiter_worker rc batt1 usb1) st = Some st1 /\
      actuator_log st1 = actuator_log st ++ [false] /\
      charging_off st1 = false /\
      charge_should_off st1 = false /\
      pending_work st1 = Some 1000 /\
      exec (charger_limiter_worker rc batt2 usb2) st1 = Some st2 /\
      actuator_log st2 = actuator_log st1 /\
      charge_should_off st2 = true /\
      pending_work st2 = Some 10000 /\
      exec (charger_limiter_worker rc batt3 usb3) st2 = Some st3 /\
      actuator_log st3 = actuator_log st ++ [false; false].
Proof.
  intros rc st batt1 usb1 status1 cap1 usbc1 batt2 usb2 status2 cap2 usbc2
         batt3 usb3 status3 cap3 usbc3
         Hwq Hgap Hoff Hpend Hrc Hs1 Hc1 Hu1 Hs2 Hc2 Hu2 Hs3 Hc3 Hu3.
  apply Z.eqb_neq in Hrc.
  assert (Hstop : stop_effect rc st = log_actuator_call false st).
  { unfold stop_effect. now rewrite Hoff, Hrc. }
  pose proof (stop_cycle_exec rc _ _ _ _ _ st Hs1 Hwq
                ltac:(lia) Hc1 Hu1 Hpend) as E1.
  rewrite Hstop in E1.
  set (st1 := set_pending_work (Some 1000)
                (set_charge_should_off false (log_actuator_call false st))) in *.
  assert (E2 : exec (charger_limiter_worker rc batt2 usb2) st1
               = Some (set_pending_work (Some 10000)
                         (set_charge_should_off true st1))).
  { apply (cycle_exec rc _ _ _ _ _ _ _ _ Hs2); [|exact Hwq].
    apply decide_arm; subst st1; cbn; auto; lia. }
  set (st2 := set_pending_work (Some 10000) (set_charge_should_off true st1))
    in *.
  assert (E3 : exec (charger_limiter_worker rc batt3 usb3) st2
               = Some (set_pending_work (Some 1000)
                         (set_charge_should_off false (stop_effect rc st2)))).
  { apply (stop_cycle_exec rc _ _ _ _ _ _ Hs3); subst st2 st1; cbn; auto; lia. }
  destruct (stop_effect_call rc st2 Hoff) as (Hlog & _).
  exists st1, st2. eexists. split; [exact E1|].
  split; [reflexivity|]. split; [exact Hoff|]. split; [reflexivity|].
  split; [reflexivity|]. split; [exact E2|]. split; [reflexivity|].
  split; [reflexivity|]. split; [reflexivity|]. split; [exact E3|].
  cbn [actuator_log set_pending_work set_charge_should_off].
  rewrite Hlog. subst st2 st1. cbn [actuator_log set_pending_work
    set_charge_should_off log_actuator_call].
  now rewrite <- app_assoc.
Qed.

Lemma failed_stop_needs_fresh_debounce_witness :
  exists st1 st2 st3,
    exec (charger_limiter_worker (fun _ _ => -5) (supply 1 100 1) (supply 0 0 1))
         (set_charge_should_off true started_state) = Some st1 /\
    actuator_log st1
    = actuator_log (set_charge_should_off true started_state) ++ [false] /\
    charging_off st1 = false /\
    charge_should_off st1 = false /\
    pending_work st1 = Some 1000 /\
    exec (charger_limiter_worker (fun _ _ => -5) (supply 1 100 1) (supply 0 0 1))
         st1 = Some st2 /\
    actuator_log st2 = actuator_log st1 /\
    charge_should_off st2 = true /\
    pending_work st2 = Some 10000 /\
    exec (charger_limiter_worker (fun _ _ => -5) (supply 1 100 1) (supply 0 0 1))
         st2 = Some st3 /\
    actuator_log st3
    = actuator_log (set_charge_should_off true started_state) ++ [false; false].
Proof.
  apply (failed_stop_needs_fresh_debounce (fun _ _ => -5)
           (set_charge_should_off true started_state)
           (supply 1 100 1) (supply 0 0 1) 1 100 1
           (supply 1 100 1) (supply 0 0 1) 1 100 1
           (supply 1 100 1) (supply 0 0 1) 1 100 1);
    solve [reflexivity | cbn; lia].
Defined.

(** ** What a cycle leaves alone *)

(** A cycle never touches the configuration or the loop's bookkeeping: the
    thresholds, enabled, cl_is_enabled and the workqueue are the same after
    it, whatever the sample and the actuator do. *)
Theorem cycle_keeps_configuration :
  forall (rc : list bool -> bool -> Z) (batt_psy usb_psy : option power_supply)
         (st st' : kstate),
    exec (charger_limiter_worker rc batt_psy usb_psy) st = Some st' ->
    charging_below st' = charging_below st /\
    charging_limit st' = charging_limit st /\
    enabled st' = enabled st /\
    cl_is_enabled st' = cl_is_enabled st /\
    charge_limiter_wq st' = charge_limiter_wq st.
Proof.
  intros rc batt_psy usb_psy st st' E.
  destruct (exec_some _ _ _ E) as (a & E').
  assert (K : preserves
                (fun s => charging_below s = charging_below st /\
                          charging_limit s = charging_limit st /\
                          enabled s = enabled st /\
                          cl_is_enabled s = cl_is_enabled st /\
                          charge_limiter_wq s = charge_limiter_wq st)
                (charger_limiter_worker rc batt_psy usb_psy)).
  { unfold charger_limiter_worker, charger_limiter_decide,
      enable_disable_charging, power_supply_set_charging_enabled,
      reschedule_worker, queue_delayed_work.
    auto 30 with preserves. }
  apply (K st a st'); [repeat split | exact E'].
Qed.

Lemma cycle_keeps_configuration_witness :
  charging_below suppressed_state
  = charging_below (set_charge_should_off true started_state) /\
  charging_limit suppressed_state
  = charging_limit (set_charge_should_off true started_state) /\
  enabled suppressed_state
  = enabled (set_charge_should_off true started_state) /\
  cl_is_enabled suppressed_state
  = cl_is_enabled (set_charge_should_off true started_state) /\
  charge_limiter_wq suppressed_state
  = charge_limiter_wq (set_charge_should_off true started_state).
Proof.
  apply (cycle_keeps_configuration never_fails
           (supply 1 100 1) (supply 0 0 1)
           (set_charge_should_off true started_state) suppressed_state).
  vm_compute. reflexivity.
Defined.
